(** * Scheme activation logic (engine/core/utils/scheme/scheme_logic.ts)

    A shallow embedding of [isActiveSection], [getSectionToActivate],
    [activateSchemeBySection], [enableObjectBaseSchemes] and
    [resetObjectGenericSchemesOnSectionSwitch].

    The registry (actor, objects, offline objects, schemes) is an explicit
    store that is threaded through every function.  Calls to collaborators
    that live in other modules and act on the game (scheme implementations,
    initializers, engine methods, the evaluation of a condition list with its
    effects) are recorded, in order and with their arguments, in a trace.
    Assertions and
    indexing of a missing table entry are errors; the store survives an error,
    so that what was written before a failure stays observable. *)

From Stdlib Require Import ZArith String List.
From stdpp Require Import base option list gmap strings.

Local Open Scope Z_scope.

(** ** Identifiers and words *)

Definition TSection := string.
Definition TName := string.
Definition TNumberId := Z.
Definition TTimestamp := Z.

(** Modelled from the spec: the constant NIL of lib/constants/words is not
    among the sources at hand; the spec describes it as a "NIL" string
    constant that stands for the null section. *)
Definition NIL : TSection := "nil"%string.

Module EScheme.
(** The members of the scheme enumeration that scheme_logic.ts names, and
    [OTHER] for every further member (the main schemes an ini section can
    resolve to). *)
Inductive t :=
| NIL | ABUSE | COMBAT | COMBAT_IGNORE | CORPSE_DETECTION | DANGER | DEATH
| GATHER_ITEMS | HEAR | HELP_WOUNDED | HIT | MEET | MOB_COMBAT | MOB_DEATH
| PH_ON_HIT | REACH_TASK | WOUNDED
| OTHER (name : string).

#[global] Instance eq_dec : EqDecision t.
Proof. solve_decision. Defined.
End EScheme.

Inductive ESchemeType := STALKER | MONSTER | OBJECT | HELICOPTER.

#[global] Instance ESchemeType_eq_dec : EqDecision ESchemeType.
Proof. solve_decision. Defined.

Inductive ESchemeEvent := ACTIVATE.

(** ** Ini files

    An ini file maps a section name to its fields.  [section_exist],
    [line_exist] and [r_string] are the engine methods of that name. *)

Abbreviation IniFile := (gmap string (gmap string string)).

Definition section_exist (ini : IniFile) (section : TSection) : bool :=
  bool_decide (is_Some (ini !! section)).

Definition line_exist (ini : IniFile) (section : TSection) (field : TName) : bool :=
  bool_decide (is_Some (ini !! section ≫= fun fields => fields !! field)).

Definition r_string (ini : IniFile) (section : TSection) (field : TName) : option string :=
  ini !! section ≫= fun fields => fields !! field.

(** ** Game objects *)

Record GameObject := {
  id : TNumberId;
  name : TName;
  clsid : Z;
  level_vertex_id : Z;
}.

(** ** Collaborators

    The engine bindings and the helpers of other modules that the file
    imports.  Their result types are opaque here. *)

Class Engine := {
  Overrides : Type;
  TConditionList : Type;
  SmartTerrain : Type;
  Time : Type;
  (** [time_global()] and [game.get_game_time()] at the moment of the call. *)
  time_global : TTimestamp;
  get_game_time : Time;
  clsid_bloodsucker_s : Z;
  (** utils/ini.  The argument of [getSchemeFromSection] can be null after the
      cast in the smart terrain branch. *)
  getSchemeFromSection : option TSection -> option EScheme.t;
  getObjectConfigOverrides : IniFile -> TSection -> GameObject -> Overrides;
  readIniConditionList : IniFile -> TSection -> TName -> option TConditionList;
  (** utils/ini, [pickSectionFromCondList(actor, object, condlist)]: the
      section the condition list picks.  The function also runs the effects
      of the branch it picks; the model records each of its calls in the
      trace of the store (see [PickSectionFromCondList] below). *)
  pickSectionFromCondList : option GameObject -> GameObject -> TConditionList
                            -> option TSection;
  (** utils/position and smart_terrain/job. *)
  getObjectTerrain : GameObject -> option SmartTerrain;
  ISmartTerrainJobDescriptor : Type;
  job_section : ISmartTerrainJobDescriptor -> TSection;
  getTerrainJobByObjectId : SmartTerrain -> TNumberId -> option ISmartTerrainJobDescriptor;
}.

(** ** Errors *)

Inductive Error :=
| NilIndex
| NoElseClause
| NotInSmartTerrain
| UnresolvedScheme
| SectionDoesNotExist
| SchemeNotRegistered
| RequiredFieldMissing.

Inductive Res (A : Type) :=
| Ok (a : A)
| Err (e : Error).
Arguments Ok {A} a.
Arguments Err {A} e.

Section Model.
Context {engine : Engine}.

(** ** Registry *)

Record IRegistryObjectState := {
  ini : IniFile;
  activeSection : option TSection;
  activeScheme : option EScheme.t;
  schemeType : ESchemeType;
  overrides : option Overrides;
  activationTime : option TTimestamp;
  activationGameTime : option Time;
}.

Record IRegistryOfflineState := {
  levelVertexId : option Z;
  offlineActiveSection : option TSection;
}.

(** Calls that leave this file, with the arguments they receive.  The first
    argument of [SchemeReset] and [SchemeActivate] is the key the
    implementation was fetched with from [registry.schemes]. *)
Inductive Call :=
| SchemeReset (impl : EScheme.t) (object : TNumberId) (scheme : EScheme.t) (section : TSection)
| SchemeActivate (impl : EScheme.t) (object : TNumberId) (ini : IniFile)
    (scheme : EScheme.t) (section : option TSection) (smartTerrainName : option TName)
| UpdateObjectMapSpot (object : TNumberId) (scheme : EScheme.t) (section : TSection)
| InitializeObjectIgnoreThreshold (object : TNumberId) (scheme : EScheme.t) (section : TSection)
| InitializeObjectInvulnerability (object : TNumberId)
| InitializeObjectGroup (object : TNumberId) (ini : IniFile) (section : TSection)
| InitializeObjectTakeItemsEnabledState (object : TNumberId) (scheme : EScheme.t) (section : TSection)
| InitializeObjectCanSelectWeaponState (object : TNumberId) (scheme : EScheme.t) (section : TSection)
| InitializeObjectInfo (object : TNumberId) (ini : IniFile) (section : TSection)
| RestrictionsActivateForObject (object : TNumberId) (section : TSection)
| ScriptReleaseMonster (object : TNumberId)
| SetManualInvisibility (object : TNumberId) (value : bool)
| SetCallbackUseObject (object : TNumberId)
| SetNonscriptUsable (object : TNumberId) (value : bool)
| SendToNearestAccessibleVertex (object : TNumberId) (vertex : Z)
| EmitSchemeEvent (object : TNumberId) (slot : EScheme.t) (event : ESchemeEvent) (isLoading : bool)
| PickSectionFromCondList (actor : option TNumberId) (object : TNumberId)
    (condlist : TConditionList).

(** The registry: the actor, the states of the objects online, the
    descriptors of the objects offline and the registered schemes; and the
    calls made so far. *)
Record World := {
  actor : option GameObject;
  objects : gmap TNumberId IRegistryObjectState;
  offlineObjects : gmap TNumberId IRegistryOfflineState;
  schemes : list EScheme.t;
  trace : list Call;
}.

(** ** The store-and-error monad *)

Definition M (A : Type) : Type := World -> Res A * World.

#[global] Instance M_ret : MRet M := fun A a w => (Ok a, w).

#[global] Instance M_bind : MBind M := fun A B k m w =>
  match m w with
  | (Ok a, w') => k a w'
  | (Err e, w') => (Err e, w')
  end.

Definition abort {A} (e : Error) : M A := fun w => (Err e, w).

Definition assert (condition : bool) (e : Error) : M unit :=
  if condition then mret tt else abort e.

Definition assert_some {A} (value : option A) (e : Error) : M A :=
  match value with Some a => mret a | None => abort e end.

(** The store after some calls were appended to the trace, and after the
    state of an object was replaced. *)
Definition log (calls : list Call) (w : World) : World :=
  {| actor := actor w; objects := objects w; offlineObjects := offlineObjects w;
     schemes := schemes w; trace := trace w ++ calls |}.

Definition put_state (object : GameObject) (state : IRegistryObjectState) (w : World) : World :=
  {| actor := actor w;
     objects := <[id object := state]> (objects w);
     offlineObjects := offlineObjects w;
     schemes := schemes w; trace := trace w |}.

Definition put_offline (object : GameObject) (descriptor : IRegistryOfflineState)
    (w : World) : World :=
  {| actor := actor w;
     objects := objects w;
     offlineObjects := <[id object := descriptor]> (offlineObjects w);
     schemes := schemes w; trace := trace w |}.

Definition call (c : Call) : M unit := fun w => (Ok tt, log [c] w).

(** ** Registry access

    [registry.objects.get(object.id())] yields a reference to the state of the
    object, or nothing; a field of a missing state cannot be read or written. *)

Definition read_state {A} (object : GameObject) (field : IRegistryObjectState -> A) : M A :=
  fun w =>
    match objects w !! id object with
    | Some state => (Ok (field state), w)
    | None => (Err NilIndex, w)
    end.

Definition write_state (object : GameObject)
    (update : IRegistryObjectState -> IRegistryObjectState) : M unit :=
  fun w =>
    match objects w !! id object with
    | Some state => (Ok tt, put_state object (update state) w)
    | None => (Err NilIndex, w)
    end.

Definition set_activationTime (value : option TTimestamp) (state : IRegistryObjectState) :=
  {| ini := ini state; activeSection := activeSection state;
     activeScheme := activeScheme state; schemeType := schemeType state;
     overrides := overrides state; activationTime := value;
     activationGameTime := activationGameTime state |}.

Definition set_activationGameTime (value : option Time) (state : IRegistryObjectState) :=
  {| ini := ini state; activeSection := activeSection state;
     activeScheme := activeScheme state; schemeType := schemeType state;
     overrides := overrides state; activationTime := activationTime state;
     activationGameTime := value |}.

Definition set_overrides (value : option Overrides) (state : IRegistryObjectState) :=
  {| ini := ini state; activeSection := activeSection state;
     activeScheme := activeScheme state; schemeType := schemeType state;
     overrides := value; activationTime := activationTime state;
     activationGameTime := activationGameTime state |}.

Definition set_activeSection (value : option TSection) (state : IRegistryObjectState) :=
  {| ini := ini state; activeSection := value;
     activeScheme := activeScheme state; schemeType := schemeType state;
     overrides := overrides state; activationTime := activationTime state;
     activationGameTime := activationGameTime state |}.

Definition set_activeScheme (value : option EScheme.t) (state : IRegistryObjectState) :=
  {| ini := ini state; activeSection := activeSection state;
     activeScheme := value; schemeType := schemeType state;
     overrides := overrides state; activationTime := activationTime state;
     activationGameTime := activationGameTime state |}.

(** [registry.actor] *)
Definition registry_actor : M (option GameObject) :=
  fun w => (Ok (actor w), w).

(** [registry.offlineObjects.get(object.id())] *)
Definition offline_descriptor (object : GameObject) : M (option IRegistryOfflineState) :=
  fun w => (Ok (offlineObjects w !! id object), w).

(** [offlineObjectDescriptor.activeSection = null], on the descriptor that
    [offline_descriptor] returned. *)
Definition clear_offline_section (object : GameObject) : M unit :=
  fun w =>
    match offlineObjects w !! id object with
    | Some descriptor =>
        (Ok tt, put_offline object
                  {| levelVertexId := levelVertexId descriptor;
                     offlineActiveSection := None |} w)
    | None => (Err NilIndex, w)
    end.

(** [registry.schemes.get(impl)], where the source goes on to call a method
    of the result without a check: a scheme that is not registered cannot be
    called. *)
Definition registered (impl : EScheme.t) : M bool :=
  fun w => (Ok (bool_decide (impl ∈ schemes w)), w).

Definition scheme_reset (impl : EScheme.t) (object : GameObject)
    (scheme : EScheme.t) (section : TSection) : M unit :=
  found ← registered impl;
  assert found NilIndex;;
  call (SchemeReset impl (id object) scheme section).

Definition scheme_activate (impl : EScheme.t) (object : GameObject) (ini : IniFile)
    (scheme : EScheme.t) (section : option TSection) (smartTerrainName : option TName) : M unit :=
  found ← registered impl;
  assert found NilIndex;;
  call (SchemeActivate impl (id object) ini scheme section smartTerrainName).

(** Modelled from the spec: readIniString of utils/ini is not among the
    sources at hand.  The spec has each slot "pointed at whatever section the
    actor's configuration names for that slot (absent a configured section, a
    neutral default is used)", and a missing sub-section "fatal for
    structurally-required slots"; the fourth argument says whether the field
    is required. *)
Definition readIniString (ini : IniFile) (section : TSection) (field : TName)
    (required : bool) : M (option string) :=
  if section_exist ini section && line_exist ini section field
  then mret (r_string ini section field)
  else if required then abort RequiredFieldMissing else mret None.

(** ** scheme_logic.ts *)

Definition isActiveSection (object : GameObject) (section : option TSection) : M bool :=
  current ← read_state object activeSection;
  mret (bool_decide (section = current)).

(** The scripts run as Lua, where a condition on a string tests only that it
    is not null: [offlineObjectDescriptor?.activeSection] and
    [assert(section, ...)] hold for every string. *)
Definition getSectionToActivate (object : GameObject) (ini : IniFile)
    (section : TSection) : M TSection :=
  if negb (section_exist ini section) then mret NIL
  else
    (* lines 81-92, reached from both ends of the offline branch *)
    let fromActiveField : M TSection :=
      match readIniConditionList ini section "active" with
      | Some condlist =>
          registryActor ← registry_actor;
          call (PickSectionFromCondList (id <$> registryActor) (id object) condlist);;
          assert_some (pickSectionFromCondList registryActor object condlist) NoElseClause
      | None => mret NIL
      end in
    offlineObjectDescriptor ← offline_descriptor object;
    match offlineObjectDescriptor ≫= offlineActiveSection with
    | Some sectionToRetry =>
        clear_offline_section object;;
        if section_exist ini sectionToRetry then mret sectionToRetry
        else fromActiveField
    | None => fromActiveField
    end.

Definition resetObjectGenericSchemesOnSectionSwitch (object : GameObject)
    (scheme : EScheme.t) (section : TSection) : M unit :=
  type ← read_state object schemeType;
  match type with
  | STALKER =>
      scheme_reset EScheme.MEET object scheme section;;
      scheme_reset EScheme.HELP_WOUNDED object scheme section;;
      scheme_reset EScheme.CORPSE_DETECTION object scheme section;;
      scheme_reset EScheme.ABUSE object scheme section;;
      scheme_reset EScheme.WOUNDED object scheme section;;
      scheme_reset EScheme.DEATH object scheme section;;
      scheme_reset EScheme.DANGER object scheme section;;
      scheme_reset EScheme.GATHER_ITEMS object scheme section;;
      scheme_reset EScheme.COMBAT_IGNORE object scheme section;;
      scheme_reset EScheme.HEAR object scheme section;;
      call (UpdateObjectMapSpot (id object) scheme section);;
      call (InitializeObjectIgnoreThreshold (id object) scheme section);;
      call (InitializeObjectInvulnerability (id object));;
      stateIni ← read_state object ini;
      call (InitializeObjectGroup (id object) stateIni section);;
      call (InitializeObjectTakeItemsEnabledState (id object) scheme section);;
      call (InitializeObjectCanSelectWeaponState (id object) scheme section);;
      call (RestrictionsActivateForObject (id object) section)
  | MONSTER =>
      call (ScriptReleaseMonster (id object));;
      (if bool_decide (clsid object = clsid_bloodsucker_s)
       then call (SetManualInvisibility (id object) (bool_decide (scheme ≠ EScheme.NIL)))
       else mret tt);;
      scheme_reset EScheme.COMBAT_IGNORE object scheme section;;
      scheme_reset EScheme.HEAR object scheme section;;
      call (InitializeObjectInvulnerability (id object));;
      call (RestrictionsActivateForObject (id object) section)
  | OBJECT =>
      call (SetCallbackUseObject (id object));;
      call (SetNonscriptUsable (id object) true)
  | HELICOPTER => mret tt
  end.

(** [assert(ini.section_exist(section), ...)]: a null name names no section,
    so past the assertion the section is a string. *)
Definition assert_section_exist (ini : IniFile) (section : option TSection) : M TSection :=
  match section with
  | Some name => assert (section_exist ini name) SectionDoesNotExist;; mret name
  | None => abort SectionDoesNotExist
  end.

(** [isLoading] is a boolean here, so [assertDefined(isLoading, ...)] holds;
    the logger line is left out. *)
Definition activateSchemeBySection (object : GameObject) (ini : IniFile)
    (section : option TSection) (smartTerrainName : option TName)
    (isLoading : bool) : M unit :=
  (if negb isLoading
   then write_state object (set_activationTime (Some time_global));;
        write_state object (set_activationGameTime (Some get_game_time))
   else mret tt);;
  if bool_decide (section = Some NIL) then
    write_state object (set_overrides None);;
    resetObjectGenericSchemesOnSectionSwitch object EScheme.NIL NIL;;
    write_state object (set_activeSection None);;
    write_state object (set_activeScheme None)
  else
    section ←
      match section with
      | None =>
          currentSmartTerrain ← assert_some (getObjectTerrain object) NotInSmartTerrain;
          mret (job_section <$> getTerrainJobByObjectId currentSmartTerrain (id object))
      | Some name => mret (Some name)
      end;
    scheme ← assert_some (getSchemeFromSection section) UnresolvedScheme;
    section ← assert_section_exist ini section;
    write_state object (set_overrides (Some (getObjectConfigOverrides ini section object)));;
    resetObjectGenericSchemesOnSectionSwitch object scheme section;;
    schemeImplementation ← registered scheme;
    assert schemeImplementation SchemeNotRegistered;;
    call (SchemeActivate scheme (id object) ini scheme (Some section) smartTerrainName);;
    write_state object (set_activeSection (Some section));;
    write_state object (set_activeScheme (Some scheme));;
    type ← read_state object schemeType;
    (if bool_decide (type = STALKER)
     then call (SendToNearestAccessibleVertex (id object) (level_vertex_id object))
     else mret tt);;
    call (EmitSchemeEvent (id object) scheme ACTIVATE isLoading).

Definition enableObjectBaseSchemes (object : GameObject) (ini : IniFile)
    (schemeType : ESchemeType) (logicsSection : TSection) : M unit :=
  match schemeType with
  | STALKER =>
      scheme_activate EScheme.DANGER object ini EScheme.DANGER (Some "danger"%string) None;;
      scheme_activate EScheme.GATHER_ITEMS object ini EScheme.GATHER_ITEMS
        (Some "gather_items"%string) None;;
      combatSection ← readIniString ini logicsSection "on_combat" false;
      scheme_activate EScheme.COMBAT object ini EScheme.COMBAT combatSection None;;
      call (InitializeObjectInvulnerability (id object));;
      infoSection ← readIniString ini logicsSection "info" false;
      match infoSection with
      | Some infoSection => call (InitializeObjectInfo (id object) ini infoSection)
      | None => mret tt
      end;;
      hitSection ← readIniString ini logicsSection "on_hit" false;
      match hitSection with
      | Some hitSection =>
          scheme_activate EScheme.HIT object ini EScheme.HIT (Some hitSection) None
      | None => mret tt
      end;;
      woundedSection ← readIniString ini logicsSection "wounded" false;
      scheme_activate EScheme.WOUNDED object ini EScheme.WOUNDED woundedSection None;;
      scheme_activate EScheme.ABUSE object ini EScheme.ABUSE (Some logicsSection) None;;
      scheme_activate EScheme.HELP_WOUNDED object ini EScheme.HELP_WOUNDED None None;;
      scheme_activate EScheme.CORPSE_DETECTION object ini EScheme.CORPSE_DETECTION None None;;
      meetSection ← readIniString ini logicsSection "meet" false;
      scheme_activate EScheme.MEET object ini EScheme.MEET meetSection None;;
      deathSection ← readIniString ini logicsSection "on_death" false;
      scheme_activate EScheme.DEATH object ini EScheme.DEATH deathSection None;;
      scheme_activate EScheme.COMBAT_IGNORE object ini EScheme.COMBAT_IGNORE None None;;
      scheme_activate EScheme.REACH_TASK object ini EScheme.REACH_TASK None None
  | MONSTER =>
      combatSection ← readIniString ini logicsSection "on_combat" false;
      match combatSection with
      | Some combatSection =>
          scheme_activate EScheme.MOB_COMBAT object ini EScheme.MOB_COMBAT
            (Some combatSection) None
      | None => mret tt
      end;;
      deathSection ← readIniString ini logicsSection "on_death" false;
      match deathSection with
      | Some deathSection =>
          scheme_activate EScheme.MOB_DEATH object ini EScheme.MOB_DEATH
            (Some deathSection) None
      | None => mret tt
      end;;
      call (InitializeObjectInvulnerability (id object));;
      hitSection ← readIniString ini logicsSection "on_hit" false;
      match hitSection with
      | Some hitSection =>
          scheme_activate EScheme.HIT object ini EScheme.HIT (Some hitSection) None
      | None => mret tt
      end;;
      scheme_activate EScheme.COMBAT_IGNORE object ini EScheme.COMBAT_IGNORE None None
  | OBJECT =>
      hitSection ← readIniString ini logicsSection "on_hit" false;
      match hitSection with
      | Some hitSection =>
          scheme_activate EScheme.PH_ON_HIT object ini EScheme.PH_ON_HIT (Some hitSection) None
      | None => mret tt
      end
  | HELICOPTER =>
      hitSection ← readIniString ini logicsSection "on_hit" false;
      match hitSection with
      | Some hitSection =>
          scheme_activate EScheme.HIT object ini EScheme.HIT (Some hitSection) None
      | None => mret tt
      end
  end.

(** ** The generic reset as a list of calls

    The schemes [resetObjectGenericSchemesOnSectionSwitch] fetches from the
    registry for an object of a given type, and the calls it makes when all
    of them are registered, in the order of the source. *)

Definition reset_impls (type : ESchemeType) : list EScheme.t :=
  match type with
  | STALKER =>
      [EScheme.MEET; EScheme.HELP_WOUNDED; EScheme.CORPSE_DETECTION; EScheme.ABUSE;
       EScheme.WOUNDED; EScheme.DEATH; EScheme.DANGER; EScheme.GATHER_ITEMS;
       EScheme.COMBAT_IGNORE; EScheme.HEAR]
  | MONSTER => [EScheme.COMBAT_IGNORE; EScheme.HEAR]
  | OBJECT | HELICOPTER => []
  end.

Definition reset_calls (object : GameObject) (state : IRegistryObjectState)
    (scheme : EScheme.t) (section : TSection) : list Call :=
  match schemeType state with
  | STALKER =>
      map (fun impl => SchemeReset impl (id object) scheme section) (reset_impls STALKER)
      ++ [UpdateObjectMapSpot (id object) scheme section;
          InitializeObjectIgnoreThreshold (id object) scheme section;
          InitializeObjectInvulnerability (id object);
          InitializeObjectGroup (id object) (ini state) section;
          InitializeObjectTakeItemsEnabledState (id object) scheme section;
          InitializeObjectCanSelectWeaponState (id object) scheme section;
          RestrictionsActivateForObject (id object) section]
  | MONSTER =>
      ScriptReleaseMonster (id object)
      :: (if bool_decide (clsid object = clsid_bloodsucker_s)
          then [SetManualInvisibility (id object) (bool_decide (scheme ≠ EScheme.NIL))]
          else [])
      ++ map (fun impl => SchemeReset impl (id object) scheme section) (reset_impls MONSTER)
      ++ [InitializeObjectInvulnerability (id object);
          RestrictionsActivateForObject (id object) section]
  | OBJECT => [SetCallbackUseObject (id object); SetNonscriptUsable (id object) true]
  | HELICOPTER => []
  end.

(** Calls that hand control to the scheme a section resolves to. *)
Definition is_activation (c : Call) : bool :=
  match c with
  | SchemeActivate _ _ _ _ _ _ | EmitSchemeEvent _ _ _ _ => true
  | _ => false
  end.

(** ** Vocabulary of the properties *)

(** [keeps obs m]: running [m] does not change the observation [obs] of the
    store, whether [m] returns or fails.  [quiet m]: running [m] only appends
    calls to the trace, none of which activates a scheme. *)

Definition keeps {X A} (obs : World → X) (m : M A) : Prop :=
  ∀ w, obs (m w).2 = obs w.

Definition quiet {A} (m : M A) : Prop :=
  ∀ w, ∃ calls, trace (m w).2 = trace w ++ calls ∧
                forallb (fun c => negb (is_activation c)) calls = true.

Definition all_registered (impls : list EScheme.t) (w : World) : Prop :=
  ∀ impl, impl ∈ impls → impl ∈ schemes w.

(** What lines 81-92 of the source compute: the section the active field of
    the logic section picks, NIL without the field, an error when no branch
    of the field applies; and the call they make on the way. *)
Definition active_field_result (registryActor : option GameObject) (object : GameObject)
    (ini : IniFile) (section : TSection) : Res TSection :=
  match readIniConditionList ini section "active" with
  | Some condlist =>
      match pickSectionFromCondList registryActor object condlist with
      | Some picked => Ok picked
      | None => Err NoElseClause
      end
  | None => Ok NIL
  end.

Definition active_field_calls (registryActor : option GameObject) (object : GameObject)
    (ini : IniFile) (section : TSection) : list Call :=
  match readIniConditionList ini section "active" with
  | Some condlist => [PickSectionFromCondList (id <$> registryActor) (id object) condlist]
  | None => []
  end.

Definition consumed (descriptor : IRegistryOfflineState) : IRegistryOfflineState :=
  {| levelVertexId := levelVertexId descriptor; offlineActiveSection := None |}.

(** The timestamps after lines 120-123. *)
Definition stamp (isLoading : bool) (state : IRegistryObjectState) : IRegistryObjectState :=
  if isLoading then state
  else set_activationGameTime (Some get_game_time)
         (set_activationTime (Some time_global) state).

Definition stamps (object : GameObject) (w : World)
    : option (option TTimestamp * option Time) :=
  (fun state => (activationTime state, activationGameTime state)) <$>
    objects w !! id object.

(** The section the smart terrain branch settles on. *)
Definition resolve_section (object : GameObject) (section : option TSection)
    : option TSection :=
  match section with
  | Some name => Some name
  | None => getObjectTerrain object ≫= fun terrain =>
            job_section <$> getTerrainJobByObjectId terrain (id object)
  end.

(** The store a complete switch to the null section leaves. *)
Definition unbound (object : GameObject) (state : IRegistryObjectState)
    (isLoading : bool) (w : World) : World :=
  log (reset_calls object state EScheme.NIL NIL)
    (put_state object
       (set_activeScheme None (set_activeSection None
          (set_overrides None (stamp isLoading state)))) w).

(** The calls of a complete switch to [section], and the store it leaves. *)
Definition activation_calls (object : GameObject) (ini : IniFile)
    (state : IRegistryObjectState) (section : TSection) (scheme : EScheme.t)
    (smartTerrainName : option TName) (isLoading : bool) : list Call :=
  reset_calls object state scheme section
  ++ [SchemeActivate scheme (id object) ini scheme (Some section) smartTerrainName]
  ++ (if bool_decide (schemeType state = STALKER)
      then [SendToNearestAccessibleVertex (id object) (level_vertex_id object)]
      else [])
  ++ [EmitSchemeEvent (id object) scheme ACTIVATE isLoading].

(** What [readIniString] returns for a field that is not required. *)
Definition read_field (ini : IniFile) (section : TSection) (field : TName) : option string :=
  if section_exist ini section && line_exist ini section field
  then r_string ini section field else None.

(** The schemes [enableObjectBaseSchemes] fetches for a stalker, and the calls
    it makes when all of them are registered, in the order of the source. *)
Definition stalker_base_impls : list EScheme.t :=
  [EScheme.DANGER; EScheme.GATHER_ITEMS; EScheme.COMBAT; EScheme.HIT; EScheme.WOUNDED;
   EScheme.ABUSE; EScheme.HELP_WOUNDED; EScheme.CORPSE_DETECTION; EScheme.MEET;
   EScheme.DEATH; EScheme.COMBAT_IGNORE; EScheme.REACH_TASK].

Definition stalker_base_calls (object : GameObject) (ini : IniFile)
    (logicsSection : TSection) : list Call :=
  [SchemeActivate EScheme.DANGER (id object) ini EScheme.DANGER (Some "danger"%string) None;
   SchemeActivate EScheme.GATHER_ITEMS (id object) ini EScheme.GATHER_ITEMS
     (Some "gather_items"%string) None;
   SchemeActivate EScheme.COMBAT (id object) ini EScheme.COMBAT
     (read_field ini logicsSection "on_combat") None;
   InitializeObjectInvulnerability (id object)]
  ++ match read_field ini logicsSection "info" with
     | Some infoSection => [InitializeObjectInfo (id object) ini infoSection]
     | None => []
     end
  ++ match read_field ini logicsSection "on_hit" with
     | Some hitSection =>
         [SchemeActivate EScheme.HIT (id object) ini EScheme.HIT (Some hitSection) None]
     | None => []
     end
  ++ [SchemeActivate EScheme.WOUNDED (id object) ini EScheme.WOUNDED
        (read_field ini logicsSection "wounded") None;
      SchemeActivate EScheme.ABUSE (id object) ini EScheme.ABUSE (Some logicsSection) None;
      SchemeActivate EScheme.HELP_WOUNDED (id object) ini EScheme.HELP_WOUNDED None None;
      SchemeActivate EScheme.CORPSE_DETECTION (id object) ini EScheme.CORPSE_DETECTION
        None None;
      SchemeActivate EScheme.MEET (id object) ini EScheme.MEET
        (read_field ini logicsSection "meet") None;
      SchemeActivate EScheme.DEATH (id object) ini EScheme.DEATH
        (read_field ini logicsSection "on_death") None;
      SchemeActivate EScheme.COMBAT_IGNORE (id object) ini EScheme.COMBAT_IGNORE None None;
      SchemeActivate EScheme.REACH_TASK (id object) ini EScheme.REACH_TASK None None].

Definition activates (impl : EScheme.t) (c : Call) : bool :=
  match c with
  | SchemeActivate impl' _ _ _ _ _ => bool_decide (impl' = impl)
  | _ => false
  end.

Definition initializes_info (c : Call) : bool :=
  match c with
  | InitializeObjectInfo _ _ _ => true
  | _ => false
  end.

Definition bound (object : GameObject) (ini : IniFile)
    (state : IRegistryObjectState) (section : TSection) (scheme : EScheme.t)
    (smartTerrainName : option TName) (isLoading : bool) (w : World) : World :=
  log (activation_calls object ini state section scheme smartTerrainName isLoading)
    (put_state object
       (set_activeScheme (Some scheme) (set_activeSection (Some section)
          (set_overrides (Some (getObjectConfigOverrides ini section object))
             (stamp isLoading state)))) w).

End Model.

(** ** The parts of activateSchemeBySection, and further vocabulary *)

Section Fragments.
Context {engine : Engine}.

(** Lines 120-123. *)
Definition stamp_activation (object : GameObject) (isLoading : bool) : M unit :=
  if negb isLoading
  then write_state object (set_activationTime (Some time_global));;
       write_state object (set_activationGameTime (Some get_game_time))
  else mret tt.

(** Lines 126-133. *)
Definition unbind (object : GameObject) : M unit :=
  write_state object (set_overrides None);;
  resetObjectGenericSchemesOnSectionSwitch object EScheme.NIL NIL;;
  write_state object (set_activeSection None);;
  write_state object (set_activeScheme None).

(** Lines 137-143. *)
Definition section_or_job (object : GameObject) (section : option TSection)
    : M (option TSection) :=
  match section with
  | None =>
      currentSmartTerrain ← assert_some (getObjectTerrain object) NotInSmartTerrain;
      mret (job_section <$> getTerrainJobByObjectId currentSmartTerrain (id object))
  | Some name => mret (Some name)
  end.

(** Lines 150-169. *)
Definition switch_to (object : GameObject) (ini : IniFile) (section : TSection)
    (scheme : EScheme.t) (smartTerrainName : option TName) (isLoading : bool) : M unit :=
  write_state object (set_overrides (Some (getObjectConfigOverrides ini section object)));;
  resetObjectGenericSchemesOnSectionSwitch object scheme section;;
  schemeImplementation ← registered scheme;
  assert schemeImplementation SchemeNotRegistered;;
  call (SchemeActivate scheme (id object) ini scheme (Some section) smartTerrainName);;
  write_state object (set_activeSection (Some section));;
  write_state object (set_activeScheme (Some scheme));;
  type ← read_state object schemeType;
  (if bool_decide (type = STALKER)
   then call (SendToNearestAccessibleVertex (id object) (level_vertex_id object))
   else mret tt);;
  call (EmitSchemeEvent (id object) scheme ACTIVATE isLoading).

(** [fails_only allowed m]: when [m] fails, the error is one of [allowed].
    [appends m]: the trace after [m] is the trace before it with calls added
    at its end. *)
Definition fails_only {A} (allowed : Error → bool) (m : M A) : Prop :=
  ∀ w e, (m w).1 = Err e → allowed e = true.

Definition appends {A} (m : M A) : Prop :=
  ∀ w, ∃ calls, trace (m w).2 = trace w ++ calls.

Definition nil_index_error (e : Error) : bool :=
  match e with NilIndex => true | _ => false end.

Definition no_else_error (e : Error) : bool :=
  match e with NoElseClause => true | _ => false end.

(** The errors of lines 136-148, raised before the state is written, and the
    errors of lines 150-169. *)
Definition resolution_error (e : Error) : bool :=
  match e with
  | NotInSmartTerrain | UnresolvedScheme | SectionDoesNotExist => true
  | _ => false
  end.

Definition switch_error (e : Error) : bool :=
  match e with NilIndex | SchemeNotRegistered => true | _ => false end.

(** The errors a call with a section name can end in, and those a call
    without one can. *)
Definition named_section_error (e : Error) : bool :=
  match e with
  | NilIndex | UnresolvedScheme | SectionDoesNotExist | SchemeNotRegistered => true
  | _ => false
  end.

Definition activation_error (e : Error) : bool :=
  match e with NoElseClause | RequiredFieldMissing => false | _ => true end.

Definition state_ini (state : IRegistryObjectState) : IniFile := ini state.

(** The store of a switch that stopped at line 156: the overrides are the new
    ones and the generic reset ran, the active section and scheme are the old
    ones. *)
Definition half_switched (object : GameObject) (ini : IniFile)
    (state : IRegistryObjectState) (section : TSection) (scheme : EScheme.t)
    (isLoading : bool) (w : World) : World :=
  log (reset_calls object state scheme section)
    (put_state object
       (set_overrides (Some (getObjectConfigOverrides ini section object))
          (stamp isLoading state)) w).

(** The schemes [enableObjectBaseSchemes] can fetch for a monster, and its
    calls when they are registered. *)
Definition monster_base_impls : list EScheme.t :=
  [EScheme.MOB_COMBAT; EScheme.MOB_DEATH; EScheme.HIT; EScheme.COMBAT_IGNORE].

Definition monster_base_calls (object : GameObject) (ini : IniFile)
    (logicsSection : TSection) : list Call :=
  match read_field ini logicsSection "on_combat" with
  | Some combatSection =>
      [SchemeActivate EScheme.MOB_COMBAT (id object) ini EScheme.MOB_COMBAT
         (Some combatSection) None]
  | None => []
  end
  ++ match read_field ini logicsSection "on_death" with
     | Some deathSection =>
         [SchemeActivate EScheme.MOB_DEATH (id object) ini EScheme.MOB_DEATH
            (Some deathSection) None]
     | None => []
     end
  ++ [InitializeObjectInvulnerability (id object)]
  ++ match read_field ini logicsSection "on_hit" with
     | Some hitSection =>
         [SchemeActivate EScheme.HIT (id object) ini EScheme.HIT (Some hitSection) None]
     | None => []
     end
  ++ [SchemeActivate EScheme.COMBAT_IGNORE (id object) ini EScheme.COMBAT_IGNORE None None].

(** The hit scheme of physic objects and of helicopters. *)
Definition hit_scheme (type : ESchemeType) : EScheme.t :=
  match type with OBJECT => EScheme.PH_ON_HIT | _ => EScheme.HIT end.



(** The schemes [enableObjectBaseSchemes] fetches from the registry for a
    type of object and a logic section, and the calls it makes when they are
    registered, in the order of the source. *)
Definition base_fetched (type : ESchemeType) (ini : IniFile) (logicsSection : TSection)
    : list EScheme.t :=
  match type with
  | STALKER =>
      [EScheme.DANGER; EScheme.GATHER_ITEMS; EScheme.COMBAT]
      ++ match read_field ini logicsSection "on_hit" with
         | Some _ => [EScheme.HIT]
         | None => []
         end
      ++ [EScheme.WOUNDED; EScheme.ABUSE; EScheme.HELP_WOUNDED; EScheme.CORPSE_DETECTION;
          EScheme.MEET; EScheme.DEATH; EScheme.COMBAT_IGNORE; EScheme.REACH_TASK]
  | MONSTER =>
      match read_field ini logicsSection "on_combat" with
      | Some _ => [EScheme.MOB_COMBAT]
      | None => []
      end
      ++ match read_field ini logicsSection "on_death" with
         | Some _ => [EScheme.MOB_DEATH]
         | None => []
         end
      ++ match read_field ini logicsSection "on_hit" with
         | Some _ => [EScheme.HIT]
         | None => []
         end
      ++ [EScheme.COMBAT_IGNORE]
  | OBJECT | HELICOPTER =>
      match read_field ini logicsSection "on_hit" with
      | Some _ => [hit_scheme type]
      | None => []
      end
  end.

Definition base_calls (type : ESchemeType) (object : GameObject) (ini : IniFile)
    (logicsSection : TSection) : list Call :=
  match type with
  | STALKER => stalker_base_calls object ini logicsSection
  | MONSTER => monster_base_calls object ini logicsSection
  | OBJECT | HELICOPTER =>
      match read_field ini logicsSection "on_hit" with
      | Some hitSection =>
          [SchemeActivate (hit_scheme type) (id object) ini (hit_scheme type)
             (Some hitSection) None]
      | None => []
      end
  end.

Definition sets_invisibility (c : Call) : bool :=
  match c with SetManualInvisibility _ _ => true | _ => false end.

End Fragments.

(** ** A small engine to run the functions on

    Condition lists are a single unconditional section name, the scheme of a
    section is the part of its name before the at sign, and no object is in a
    smart terrain. *)

Fixpoint scheme_name (section : string) : string :=
  match section with
  | EmptyString => EmptyString
  | String c rest =>
      if Ascii.eqb c (Ascii.ascii_of_nat 64) then EmptyString
      else String c (scheme_name rest)
  end.

#[local] Instance demo_engine : Engine := {|
  Overrides := TSection;
  TConditionList := string;
  SmartTerrain := unit;
  Time := Z;
  time_global := 1000;
  get_game_time := 50;
  clsid_bloodsucker_s := 7;
  getSchemeFromSection section := (fun name => EScheme.OTHER (scheme_name name)) <$> section;
  getObjectConfigOverrides _ section _ := section;
  readIniConditionList ini section field := r_string ini section field;
  pickSectionFromCondList _ _ condlist := Some condlist;
  getObjectTerrain _ := None;
  ISmartTerrainJobDescriptor := TSection;
  job_section job := job;
  getTerrainJobByObjectId _ _ := None;
|}.

Module Demo.
Definition player : GameObject :=
  {| id := 0; name := "actor"; clsid := 1; level_vertex_id := 12 |}.

Definition stalker : GameObject :=
  {| id := 1; name := "stalker"; clsid := 3; level_vertex_id := 255 |}.

(** [logic] names a default in its active field, [logic_plain] has no
    active field. *)
Definition ltx : IniFile :=
  {[ "logic"%string := {[ "active"%string := "walker@guard"%string ]};
     "logic_plain"%string := ∅;
     "walker@guard"%string := ∅;
     "walker@patrol"%string := ∅ ]}.

Definition state (section : option TSection) (scheme : option EScheme.t)
    : IRegistryObjectState :=
  {| ini := ltx; activeSection := section; activeScheme := scheme;
     schemeType := STALKER; overrides := None;
     activationTime := Some 10; activationGameTime := Some 2 |}.

Definition all_schemes : list EScheme.t :=
  [EScheme.ABUSE; EScheme.COMBAT; EScheme.COMBAT_IGNORE; EScheme.CORPSE_DETECTION;
   EScheme.DANGER; EScheme.DEATH; EScheme.GATHER_ITEMS; EScheme.HEAR;
   EScheme.HELP_WOUNDED; EScheme.HIT; EScheme.MEET; EScheme.MOB_COMBAT;
   EScheme.MOB_DEATH; EScheme.PH_ON_HIT; EScheme.REACH_TASK; EScheme.WOUNDED;
   EScheme.OTHER "walker"].

(** The stalker is bound to [walker@patrol]. *)
Definition online : World :=
  {| actor := Some player;
     objects := {[ 1 := state (Some "walker@patrol"%string) (Some (EScheme.OTHER "walker")) ]};
     offlineObjects := ∅;
     schemes := all_schemes; trace := [] |}.

(** The stalker comes back online with a recorded section. *)
Definition resumed (recorded : option TSection) : World :=
  {| actor := Some player;
     objects := {[ 1 := state None None ]};
     offlineObjects := {[ 1 := {| levelVertexId := Some 255;
                                  offlineActiveSection := recorded |} ]};
     schemes := all_schemes; trace := [] |}.
End Demo.

(** * Item upgrades (engine/core/managers/upgrades/UpgradesManager.ts)

    The manager works on the upgrades configuration, on the actor of the
    registry and on two system ini files.  Evaluating a condition list runs
    its effects, which reach back into the manager (hints, discount), so
    [pickSectionFromCondList] is a function on the whole store here.  The
    arithmetic on rates is the one of the host and stays opaque. *)

Module Upgrades.

Definition TLabel := string.

Class Env := {
  TConditionList : Type;
  TRate : Type;
  Speaker : Type;
  (** The words FALSE and TRUE of lib/constants/words. *)
  FALSE : string;
  TRUE : string;
  STALKER_UPGRADE_INFO : IniFile;
  ITEM_UPGRADES : IniFile;
  r_u32 : IniFile → TSection → TName → Z;
  (** [math.floor(cost * rate)] *)
  floor_mul : Z → TRate → Z;
  getRepairPrice : TSection → TRate → Z;
  translate_string : string → string;
  parseConditionsList : string → TConditionList;
}.

Section Manager.
Context {env : Env}.

Record UpgradesConfig := {
  UPGRADES_HINTS : option (list TLabel);
  PRICE_DISCOUNT_RATE : TRate;
  CURRENT_MECHANIC_NAME : TName;
}.

(** [actor] says whether [registry.actor] is set and [cash] is the money of
    the actor object; [given] lists the amounts passed to [give_money],
    oldest first. *)
Record Store := {
  config : UpgradesConfig;
  actor : bool;
  cash : Z;
  ACTIVE_SPEAKER : option Speaker;
  given : list Z;
}.

(** [pickSectionFromCondList(registry.actor, speaker, condlist)] *)
Context (pickSectionFromCondList :
           option Speaker → TConditionList → Store → option TSection * Store).

Definition set_config (value : UpgradesConfig) (w : Store) : Store :=
  {| config := value; actor := actor w; cash := cash w;
     ACTIVE_SPEAKER := ACTIVE_SPEAKER w; given := given w |}.

Definition setCurrentHints (hints : option (list TLabel)) (w : Store) : Store :=
  set_config {| UPGRADES_HINTS := hints;
                PRICE_DISCOUNT_RATE := PRICE_DISCOUNT_RATE (config w);
                CURRENT_MECHANIC_NAME := CURRENT_MECHANIC_NAME (config w) |} w.

Definition setCurrentPriceDiscount (rate : TRate) (w : Store) : Store :=
  set_config {| UPGRADES_HINTS := UPGRADES_HINTS (config w);
                PRICE_DISCOUNT_RATE := rate;
                CURRENT_MECHANIC_NAME := CURRENT_MECHANIC_NAME (config w) |} w.

Definition set_mechanic (mechanicName : TName) (w : Store) : Store :=
  set_config {| UPGRADES_HINTS := UPGRADES_HINTS (config w);
                PRICE_DISCOUNT_RATE := PRICE_DISCOUNT_RATE (config w);
                CURRENT_MECHANIC_NAME := mechanicName |} w.

(** [registry.actor.give_money(amount)]: the engine adds the amount to the
    money of the actor, the money that [registry.actor.money()] reads; the
    amounts passed are kept in [given], in order.  Without an actor the call
    cannot be made. *)
Definition give_money (amount : Z) (w : Store) : option Store :=
  if actor w
  then Some {| config := config w; actor := actor w; cash := cash w + amount;
               ACTIVE_SPEAKER := ACTIVE_SPEAKER w; given := given w ++ [amount] |}
  else None.

Definition getRepairItemPayment (section : TSection) (condition : TRate) (w : Store)
    : option Store :=
  give_money (- getRepairPrice section condition) w.

(** [math.floor(ITEM_UPGRADES.r_u32(section, "cost") * PRICE_DISCOUNT_RATE)] *)
Definition upgrade_price (section : TSection) (w : Store) : Z :=
  floor_mul (r_u32 ITEM_UPGRADES section "cost") (PRICE_DISCOUNT_RATE (config w)).

Definition getUpgradeItemPayment (name : TName) (section : TSection) (loading : Z)
    (w : Store) : option Store :=
  if bool_decide (loading = 0) then give_money (upgrade_price section w * -1) w
  else Some w.

Definition getPossibilitiesLabel (mechanicName : TName) (possibilities : TConditionList)
    (w : Store) : TLabel :=
  let hintsLabel :=
    match UPGRADES_HINTS (config w) with
    | Some hints =>
        foldl (fun label caption =>
                 String.append label (String.append "\n - " (translate_string caption)))
              EmptyString hints
    | None => EmptyString
    end in
  if String.eqb hintsLabel EmptyString then " - add hints for this upgrade"%string
  else hintsLabel.

Definition setupDiscounts (w : Store) : Store :=
  if line_exist STALKER_UPGRADE_INFO (CURRENT_MECHANIC_NAME (config w)) "discount_condlist"
  then
    match r_string STALKER_UPGRADE_INFO (CURRENT_MECHANIC_NAME (config w))
            "discount_condlist" with
    | Some data => (pickSectionFromCondList None (parseConditionsList data) w).2
    | None => w
    end
  else w.

Definition canUpgradeItem (section : TSection) (mechanicName : TName) (w : Store)
    : bool * Store :=
  let w := setupDiscounts (set_mechanic mechanicName w) in
  (negb (line_exist STALKER_UPGRADE_INFO mechanicName "he_upgrade_nothing")
   && line_exist STALKER_UPGRADE_INFO mechanicName section, w).

(** The section of the current mechanic that lists what it upgrades. *)
Definition upgrades_section (w : Store) : TSection :=
  String.append (CURRENT_MECHANIC_NAME (config w)) "_upgr".

(** Whether the condition list left the upgrade impossible:
    [!possibility || possibility === FALSE]. *)
Definition refused (possibility : option TSection) : bool :=
  match possibility with
  | None => true
  | Some picked => String.eqb picked FALSE
  end.

Definition getPreconditionFunctorA (name : TName) (section : TSection) (w : Store)
    : Z * Store :=
  let price_check (w : Store) : Z * Store :=
    (* lines 154-163 *)
    if actor w
    then if bool_decide (cash w < upgrade_price section w) then (2, w) else (0, w)
    else (0, w) in
  if line_exist STALKER_UPGRADE_INFO (upgrades_section w) section then
    match r_string STALKER_UPGRADE_INFO (upgrades_section w) section with
    | Some param =>
        if String.eqb param FALSE then (1, w)
        else if negb (String.eqb param TRUE) then
          let possibilitiesConditionList := parseConditionsList param in
          let '(possibility, w) :=
            pickSectionFromCondList (ACTIVE_SPEAKER w) possibilitiesConditionList w in
          if refused possibility then (2, w) else price_check w
        else price_check w
    | None => price_check w
    end
  else price_check w.

Definition getPreRequirementsFunctorA (name : TName) (section : TSection) (w : Store)
    : TLabel * Store :=
  (* [registry.actor] is read once, on entry *)
  let hasActor := actor w in
  let money_line (label : TLabel) (w : Store) : TLabel * Store :=
    (* lines 197-205 *)
    if hasActor
    then if bool_decide (cash w < upgrade_price section w)
         then (String.append label
                 (String.append "\n - " (translate_string "st_upgr_enough_money")), w)
         else (label, w)
    else (label, w) in
  let label := EmptyString in
  if line_exist STALKER_UPGRADE_INFO (upgrades_section w) section then
    match r_string STALKER_UPGRADE_INFO (upgrades_section w) section with
    | Some param =>
        if String.eqb param FALSE then (label, w)
        else
          let w := setCurrentHints None w in
          let possibilitiesConditionList := parseConditionsList param in
          let '(possibility, w) :=
            pickSectionFromCondList (ACTIVE_SPEAKER w) possibilitiesConditionList w in
          let label :=
            if refused possibility
            then String.append label
                   (getPossibilitiesLabel (CURRENT_MECHANIC_NAME (config w))
                      possibilitiesConditionList w)
            else label in
          money_line label w
    | None => money_line label w
    end
  else money_line label w.

(** The label [getPossibilitiesLabel] builds from a list of hints, one line
    per hint. *)
Definition hint_lines (hints : list TLabel) : TLabel :=
  foldr (fun caption rest =>
           String.append (String.append "\n - " (translate_string caption)) rest)
        EmptyString hints.

End Manager.
End Upgrades.

(** A mechanic with a list of upgrades, prices in percent of the cost, and
    condition lists that are a single unconditional section name without
    effects. *)
Module DemoUpgrades.
#[local] Instance env : Upgrades.Env := {|
  Upgrades.TConditionList := string;
  Upgrades.TRate := Z;
  Upgrades.Speaker := unit;
  Upgrades.FALSE := "false";
  Upgrades.TRUE := "true";
  Upgrades.STALKER_UPGRADE_INFO :=
    {[ "mechanic_upgr"%string :=
         {[ "up_a"%string := "true"%string; "up_b"%string := "false"%string ]} ]};
  Upgrades.ITEM_UPGRADES := ∅;
  Upgrades.r_u32 _ _ _ := 1000;
  Upgrades.floor_mul cost rate := cost * rate / 100;
  Upgrades.getRepairPrice _ _ := 10;
  Upgrades.translate_string caption := caption;
  Upgrades.parseConditionsList data := data;
|}.

Definition pick (speaker : option unit) (condlist : string) (w : Upgrades.Store)
    : option TSection * Upgrades.Store := (Some condlist, w).

Definition store (cash : Z) : Upgrades.Store :=
  {| Upgrades.config :=
       {| Upgrades.UPGRADES_HINTS := Some ["hint_a"%string; "hint_b"%string];
          Upgrades.PRICE_DISCOUNT_RATE := 50;
          Upgrades.CURRENT_MECHANIC_NAME := "mechanic" |};
     Upgrades.actor := true; Upgrades.cash := cash;
     Upgrades.ACTIVE_SPEAKER := None; Upgrades.given := [] |}.
End DemoUpgrades.

(** * Animpoint actions

    The table of the actions of each animpoint state, and the predicates that
    say whether an object can take an action.  The predicates read the visual
    and the inventory of the object, the name of its smart terrain and the
    smart terrains of the registry where combat is off. *)

Module Animpoint.

(** The states of [EStalkerState] that the table names. *)
Inductive EStalkerState :=
| ANIMPOINT_STAY_WALL
| ANIMPOINT_STAY_WALL_EAT_BREAD
| ANIMPOINT_STAY_WALL_EAT_KOLBASA
| ANIMPOINT_STAY_WALL_DRINK_VODKA
| ANIMPOINT_STAY_WALL_DRINK_ENERGY
| ANIMPOINT_STAY_WALL_WEAPON
| ANIMPOINT_STAY_TABLE
| ANIMPOINT_STAY_TABLE_EAT_BREAD
| ANIMPOINT_STAY_TABLE_EAT_KOLBASA
| ANIMPOINT_STAY_TABLE_DRINK_VODKA
| ANIMPOINT_STAY_TABLE_DRINK_ENERGY
| ANIMPOINT_STAY_TABLE_WEAPON
| ANIMPOINT_SIT_HIGH
| ANIMPOINT_SIT_HIGH_EAT_BREAD
| ANIMPOINT_SIT_HIGH_EAT_KOLBASA
| ANIMPOINT_SIT_HIGH_DRINK_VODKA
| ANIMPOINT_SIT_HIGH_DRINK_ENERGY
| ANIMPOINT_SIT_HIGH_HARMONICA
| ANIMPOINT_SIT_NORMAL
| ANIMPOINT_SIT_NORMAL_EAT_BREAD
| ANIMPOINT_SIT_NORMAL_EAT_KOLBASA
| ANIMPOINT_SIT_NORMAL_DRINK_VODKA
| ANIMPOINT_SIT_NORMAL_DRINK_ENERGY
| ANIMPOINT_SIT_NORMAL_GUITAR
| ANIMPOINT_SIT_LOW
| ANIMPOINT_SIT_LOW_EAT_BREAD
| ANIMPOINT_SIT_LOW_EAT_KOLBASA
| ANIMPOINT_SIT_LOW_DRINK_VODKA
| ANIMPOINT_SIT_LOW_DRINK_ENERGY
| ANIMPOINT_SIT_LOW_GUITAR
| ANIMPOINT_SIT_LOW_HARMONICA
| ANIMPOINT_SIT_ASS
| ANIMPOINT_SIT_ASS_EAT_BREAD
| ANIMPOINT_SIT_ASS_EAT_KOLBASA
| ANIMPOINT_SIT_ASS_DRINK_VODKA
| ANIMPOINT_SIT_ASS_DRINK_ENERGY
| ANIMPOINT_SIT_ASS_GUITAR
| ANIMPOINT_SIT_ASS_HARMONICA
| ANIMPOINT_SIT_KNEE
| ANIMPOINT_SIT_KNEE_EAT_BREAD
| ANIMPOINT_SIT_KNEE_EAT_KOLBASA
| ANIMPOINT_SIT_KNEE_DRINK_VODKA
| ANIMPOINT_SIT_KNEE_DRINK_ENERGY
| ANIMPOINT_SIT_KNEE_GUITAR
| ANIMPOINT_SIT_KNEE_HARMONICA
| PLAY_GUITAR
| PLAY_HARMONICA
| WALKER_CAMP.

Class Env := {
  (** The item sections of lib/constants/items. *)
  food_bread : TSection;
  food_kolbasa : TSection;
  food_vodka : TSection;
  food_energy_drink : TSection;
  misc_guitar_a : TSection;
  misc_harmonica_a : TSection;
  get_visual_name : GameObject → TName;
  (** Whether [object.object(section)] finds an item. *)
  has_object : GameObject → TSection → bool;
  (** [getObjectTerrain(object)?.name()] *)
  terrain_name : GameObject → option TName;
}.

Section Predicates.
Context {env : Env}.

Definition eatableVisuals : list TName :=
  ["actors\stalker_hero\stalker_hero_1"%string;
  "actors\stalker_hero\stalker_hero_novice_1"%string;
  "actors\stalker_hero\stalker_hero_stalker_1"%string;
  "actors\stalker_hero\stalker_hero_dolg_1"%string;
  "actors\stalker_hero\stalker_hero_dolg_2"%string;
  "actors\stalker_hero\stalker_hero_freedom_1"%string;
  "actors\stalker_hero\stalker_hero_freedom_2"%string;
  "actors\stalker_hero\stalker_hero_specops"%string;
  "actors\stalker_hero\stalker_hero_military"%string;
  "actors\stalker_hero\stalker_hero_neutral_nauchniy"%string;
  "actors\stalker_hero\stalker_hero_cs_heavy"%string;
  "actors\stalker_hero\stalker_hero_exo"%string;
  "actors\stalker_bandit\stalker_bandit_3"%string;
  "actors\stalker_bandit\stalker_bandit_3_face_1"%string;
  "actors\stalker_bandit\stalker_bandit_3_mask"%string;
  "actors\stalker_bandit\stalker_bandit_4"%string;
  "actors\stalker_dolg\stalker_dolg_2_face_1"%string;
  "actors\stalker_dolg\stalker_dolg_1_face_1"%string;
  "actors\stalker_dolg\stalker_dolg_3_face_1"%string;
  "actors\stalker_freedom\stalker_freedom_1_face_1"%string;
  "actors\stalker_freedom\stalker_freedom_2_face_1"%string;
  "actors\stalker_freedom\stalker_freedom_2_face_2"%string;
  "actors\stalker_freedom\stalker_freedom_3"%string;
  "actors\stalker_freedom\stalker_freedom_3_face_1"%string;
  "actors\stalker_monolith\stalker_monolith_1_face_1"%string;
  "actors\stalker_nebo\stalker_nebo_2_face_1"%string;
  "actors\stalker_neutral\stalker_neutral_1"%string;
  "actors\stalker_neutral\stalker_neutral_1_face_1"%string;
  "actors\stalker_neutral\stalker_neutral_1_face_2"%string;
  "actors\stalker_neutral\stalker_neutral_1_face_3"%string;
  "actors\stalker_bandit\stalker_bandit_3_face_3"%string;
  "actors\stalker_neutral\stalker_neutral_2_face_1"%string;
  "actors\stalker_neutral\stalker_neutral_2_face_2"%string;
  "actors\stalker_neutral\stalker_neutral_2_face_3"%string;
  "actors\stalker_neutral\stalker_neutral_2_face_4"%string;
  "actors\stalker_neutral\stalker_neutral_2_face_5"%string;
  "actors\stalker_neutral\stalker_neutral_2_face_6"%string;
  "actors\stalker_neutral\stalker_neutral_2_face_7"%string;
  "actors\stalker_neutral\stalker_neutral_2_mask"%string;
  "actors\stalker_bandit\stalker_bandit_3_face_2"%string;
  "actors\stalker_neutral\stalker_neutral_3_face_1"%string;
  "actors\stalker_neutral\stalker_neutral_nauchniy_face_1"%string;
  "actors\stalker_neutral\stalker_neutral_nauchniy_face_3"%string;
  "actors\stalker_soldier\stalker_soldier_1"%string;
  "actors\stalker_soldier\stalker_soldier_1_face_1"%string;
  "actors\stalker_soldier\stalker_solider_2"%string;
  "actors\stalker_soldier\stalker_solider_2_face_1"%string;
  "actors\stalker_soldier\stalker_solider_3_face_1"%string;
  "actors\stalker_soldier\stalker_solider_ecolog_face_1"%string;
  "actors\stalker_ucheniy\stalker_ucheniy_1_face_1"%string;
  "actors\stalker_ucheniy\stalker_ucheniy_1_face_2"%string;
  "actors\stalker_zombied\stalker_zombied_1"%string;
  "actors\stalker_zombied\stalker_zombied_3"%string;
  "actors\stalker_neutral\stalker_neutral_nauchniy_face_2"%string].

Definition harmonicaVisuals : list TName :=
  ["actors\stalker_hero\stalker_hero_1"%string;
  "actors\stalker_hero\stalker_hero_novice_1"%string;
  "actors\stalker_hero\stalker_hero_stalker_1"%string;
  "actors\stalker_hero\stalker_hero_dolg_1"%string;
  "actors\stalker_hero\stalker_hero_dolg_2"%string;
  "actors\stalker_hero\stalker_hero_freedom_1"%string;
  "actors\stalker_hero\stalker_hero_freedom_2"%string;
  "actors\stalker_hero\stalker_hero_specops"%string;
  "actors\stalker_hero\stalker_hero_military"%string;
  "actors\stalker_hero\stalker_hero_neutral_nauchniy"%string;
  "actors\stalker_hero\stalker_hero_cs_heavy"%string;
  "actors\stalker_hero\stalker_hero_exo"%string;
  "actors\stalker_bandit\stalker_bandit_1"%string;
  "actors\stalker_bandit\stalker_bandit_2"%string;
  "actors\stalker_bandit\stalker_bandit_3"%string;
  "actors\stalker_bandit\stalker_bandit_3_face_1"%string;
  "actors\stalker_bandit\stalker_bandit_3_mask"%string;
  "actors\stalker_bandit\stalker_bandit_4"%string;
  "actors\stalker_dolg\stalker_dolg_2_face_1"%string;
  "actors\stalker_dolg\stalker_dolg_1_face_1"%string;
  "actors\stalker_dolg\stalker_dolg_2_mask"%string;
  "actors\stalker_dolg\stalker_dolg_3_face_1"%string;
  "actors\stalker_freedom\stalker_freedom_1_face_1"%string;
  "actors\stalker_freedom\stalker_freedom_2_face_1"%string;
  "actors\stalker_freedom\stalker_freedom_2_face_2"%string;
  "actors\stalker_freedom\stalker_freedom_2_mask"%string;
  "actors\stalker_freedom\stalker_freedom_3"%string;
  "actors\stalker_freedom\stalker_freedom_3_face_1"%string;
  "actors\stalker_monolith\stalker_monolith_1_face_1"%string;
  "actors\stalker_nebo\stalker_nebo_2_face_1"%string;
  "actors\stalker_neutral\stalker_neutral_1"%string;
  "actors\stalker_neutral\stalker_neutral_1_face_1"%string;
  "actors\stalker_neutral\stalker_neutral_1_face_2"%string;
  "actors\stalker_neutral\stalker_neutral_1_face_3"%string;
  "actors\stalker_bandit\stalker_bandit_3_face_3"%string;
  "actors\stalker_neutral\stalker_neutral_2_face_1"%string;
  "actors\stalker_neutral\stalker_neutral_2_face_2"%string;
  "actors\stalker_neutral\stalker_neutral_2_face_3"%string;
  "actors\stalker_neutral\stalker_neutral_2_face_4"%string;
  "actors\stalker_neutral\stalker_neutral_2_face_5"%string;
  "actors\stalker_neutral\stalker_neutral_2_face_6"%string;
  "actors\stalker_neutral\stalker_neutral_2_face_7"%string;
  "actors\stalker_bandit\stalker_bandit_3_face_2"%string;
  "actors\stalker_neutral\stalker_neutral_2_mask"%string;
  "actors\stalker_neutral\stalker_neutral_3_face_1"%string;
  "actors\stalker_neutral\stalker_neutral_nauchniy_face_1"%string;
  "actors\stalker_neutral\stalker_neutral_nauchniy_face_3"%string;
  "actors\stalker_soldier\stalker_soldier_1"%string;
  "actors\stalker_soldier\stalker_soldier_1_face_1"%string;
  "actors\stalker_soldier\stalker_solider_2"%string;
  "actors\stalker_soldier\stalker_solider_2_face_1"%string;
  "actors\stalker_soldier\stalker_solider_3_face_1"%string;
  "actors\stalker_soldier\stalker_solider_ecolog_face_1"%string;
  "actors\stalker_ucheniy\stalker_ucheniy_1_face_1"%string;
  "actors\stalker_ucheniy\stalker_ucheniy_1_face_2"%string;
  "actors\stalker_zombied\stalker_zombied_1"%string;
  "actors\stalker_zombied\stalker_zombied_2"%string;
  "actors\stalker_zombied\stalker_zombied_3"%string;
  "actors\stalker_zombied\stalker_zombied_4"%string;
  "actors\stalker_neutral\stalker_neutral_nauchniy_face_2"%string].

(** The predicates receive the object and the camp flag; the registry they
    read is their first argument here. *)
Definition TAnimpointPredicate : Type :=
  gmap TName bool → GameObject → option bool → bool.

Definition animpointPredicateAlways : TAnimpointPredicate :=
  fun noCombatSmartTerrains object isInCamp => true.

Definition animpointPredicateBread : TAnimpointPredicate :=
  fun noCombatSmartTerrains object isInCamp =>
    if bool_decide (get_visual_name object ∈ eatableVisuals) && has_object object food_bread
    then true else false.

Definition animpointPredicateKolbasa : TAnimpointPredicate :=
  fun noCombatSmartTerrains object isInCamp =>
    if bool_decide (get_visual_name object ∈ eatableVisuals) && has_object object food_kolbasa
    then true else false.

Definition animpointPredicateVodka : TAnimpointPredicate :=
  fun noCombatSmartTerrains object isInCamp =>
    if bool_decide (get_visual_name object ∈ eatableVisuals) && has_object object food_vodka
    then true else false.

Definition animpointPredicateEnergy : TAnimpointPredicate :=
  fun noCombatSmartTerrains object isInCamp =>
    if bool_decide (get_visual_name object ∈ eatableVisuals)
       && has_object object food_energy_drink
    then true else false.

(** A camp flag that is null or false does not hold. *)
Definition holds (flag : option bool) : bool :=
  match flag with Some true => true | _ => false end.

Definition animpointPredicateGuitar : TAnimpointPredicate :=
  fun noCombatSmartTerrains object isInCamp =>
    if holds isInCamp && has_object object misc_guitar_a then true else false.

Definition animpointPredicateHarmonica : TAnimpointPredicate :=
  fun noCombatSmartTerrains object isInCamp =>
    if bool_decide (isInCamp = Some true)
       && bool_decide (get_visual_name object ∈ harmonicaVisuals)
       && has_object object misc_harmonica_a
    then true else false.

Definition animpointPredicateWeapon : TAnimpointPredicate :=
  fun noCombatSmartTerrains object isInCamp =>
    match terrain_name object with
    | Some terrainName =>
        if holds (noCombatSmartTerrains !! terrainName) then false else true
    | None => true
    end.

Record IAnimpointActionDescriptor := {
  name : EStalkerState;
  predicate : TAnimpointPredicate;
}.

(** The table; a state without an entry has no list. *)
Definition animpoint_predicates (state : EStalkerState)
    : option (list IAnimpointActionDescriptor) :=
  match state with
  | ANIMPOINT_STAY_WALL =>
      Some
      [{| name := ANIMPOINT_STAY_WALL; predicate := animpointPredicateAlways |};
       {| name := ANIMPOINT_STAY_WALL_EAT_BREAD; predicate := animpointPredicateBread |};
       {| name := ANIMPOINT_STAY_WALL_EAT_KOLBASA; predicate := animpointPredicateKolbasa |};
       {| name := ANIMPOINT_STAY_WALL_DRINK_VODKA; predicate := animpointPredicateVodka |};
       {| name := ANIMPOINT_STAY_WALL_DRINK_ENERGY; predicate := animpointPredicateEnergy |};
       {| name := ANIMPOINT_STAY_WALL_WEAPON; predicate := animpointPredicateWeapon |}]
  | ANIMPOINT_STAY_TABLE =>
      Some
      [{| name := ANIMPOINT_STAY_TABLE; predicate := animpointPredicateAlways |};
       {| name := ANIMPOINT_STAY_TABLE_EAT_BREAD; predicate := animpointPredicateBread |};
       {| name := ANIMPOINT_STAY_TABLE_EAT_KOLBASA; predicate := animpointPredicateKolbasa |};
       {| name := ANIMPOINT_STAY_TABLE_DRINK_VODKA; predicate := animpointPredicateVodka |};
       {| name := ANIMPOINT_STAY_TABLE_DRINK_ENERGY; predicate := animpointPredicateEnergy |};
       {| name := ANIMPOINT_STAY_TABLE_WEAPON; predicate := animpointPredicateWeapon |}]
  | ANIMPOINT_SIT_HIGH =>
      Some
      [{| name := ANIMPOINT_SIT_HIGH; predicate := animpointPredicateAlways |};
       {| name := ANIMPOINT_SIT_HIGH_EAT_BREAD; predicate := animpointPredicateBread |};
       {| name := ANIMPOINT_SIT_HIGH_EAT_KOLBASA; predicate := animpointPredicateKolbasa |};
       {| name := ANIMPOINT_SIT_HIGH_DRINK_VODKA; predicate := animpointPredicateVodka |};
       {| name := ANIMPOINT_SIT_HIGH_DRINK_ENERGY; predicate := animpointPredicateEnergy |};
       {| name := ANIMPOINT_SIT_HIGH_HARMONICA; predicate := animpointPredicateHarmonica |}]
  | ANIMPOINT_SIT_NORMAL =>
      Some
      [{| name := ANIMPOINT_SIT_NORMAL; predicate := animpointPredicateAlways |};
       {| name := ANIMPOINT_SIT_NORMAL_EAT_BREAD; predicate := animpointPredicateBread |};
       {| name := ANIMPOINT_SIT_NORMAL_EAT_KOLBASA; predicate := animpointPredicateKolbasa |};
       {| name := ANIMPOINT_SIT_NORMAL_DRINK_VODKA; predicate := animpointPredicateVodka |};
       {| name := ANIMPOINT_SIT_NORMAL_DRINK_ENERGY; predicate := animpointPredicateEnergy |};
       {| name := ANIMPOINT_SIT_NORMAL_GUITAR; predicate := animpointPredicateGuitar |}]
  | ANIMPOINT_SIT_LOW =>
      Some
      [{| name := ANIMPOINT_SIT_LOW; predicate := animpointPredicateAlways |};
       {| name := ANIMPOINT_SIT_LOW_EAT_BREAD; predicate := animpointPredicateBread |};
       {| name := ANIMPOINT_SIT_LOW_EAT_KOLBASA; predicate := animpointPredicateKolbasa |};
       {| name := ANIMPOINT_SIT_LOW_DRINK_VODKA; predicate := animpointPredicateVodka |};
       {| name := ANIMPOINT_SIT_LOW_DRINK_ENERGY; predicate := animpointPredicateEnergy |};
       {| name := ANIMPOINT_SIT_LOW_GUITAR; predicate := animpointPredicateGuitar |};
       {| name := ANIMPOINT_SIT_LOW_HARMONICA; predicate := animpointPredicateHarmonica |}]
  | ANIMPOINT_SIT_ASS =>
      Some
      [{| name := ANIMPOINT_SIT_ASS; predicate := animpointPredicateAlways |};
       {| name := ANIMPOINT_SIT_ASS_EAT_BREAD; predicate := animpointPredicateBread |};
       {| name := ANIMPOINT_SIT_ASS_EAT_KOLBASA; predicate := animpointPredicateKolbasa |};
       {| name := ANIMPOINT_SIT_ASS_DRINK_VODKA; predicate := animpointPredicateVodka |};
       {| name := ANIMPOINT_SIT_ASS_DRINK_ENERGY; predicate := animpointPredicateEnergy |};
       {| name := ANIMPOINT_SIT_ASS_GUITAR; predicate := animpointPredicateGuitar |};
       {| name := ANIMPOINT_SIT_ASS_HARMONICA; predicate := animpointPredicateHarmonica |}]
  | ANIMPOINT_SIT_KNEE =>
      Some
      [{| name := ANIMPOINT_SIT_KNEE; predicate := animpointPredicateAlways |};
       {| name := ANIMPOINT_SIT_KNEE_EAT_BREAD; predicate := animpointPredicateBread |};
       {| name := ANIMPOINT_SIT_KNEE_EAT_KOLBASA; predicate := animpointPredicateKolbasa |};
       {| name := ANIMPOINT_SIT_KNEE_DRINK_VODKA; predicate := animpointPredicateVodka |};
       {| name := ANIMPOINT_SIT_KNEE_DRINK_ENERGY; predicate := animpointPredicateEnergy |};
       {| name := ANIMPOINT_SIT_KNEE_GUITAR; predicate := animpointPredicateGuitar |};
       {| name := ANIMPOINT_SIT_KNEE_HARMONICA; predicate := animpointPredicateHarmonica |}]
  | WALKER_CAMP =>
      Some
      [{| name := PLAY_GUITAR; predicate := animpointPredicateGuitar |};
       {| name := PLAY_HARMONICA; predicate := animpointPredicateHarmonica |}]
  | _ => None
  end.

End Predicates.
End Animpoint.

Module DemoAnimpoint.
#[local] Instance env : Animpoint.Env := {|
  Animpoint.food_bread := "bread";
  Animpoint.food_kolbasa := "kolbasa";
  Animpoint.food_vodka := "vodka";
  Animpoint.food_energy_drink := "energy_drink";
  Animpoint.misc_guitar_a := "guitar_a";
  Animpoint.misc_harmonica_a := "harmonica_a";
  Animpoint.get_visual_name _ := "actors\stalker_neutral\stalker_neutral_1";
  Animpoint.has_object _ _ := true;
  Animpoint.terrain_name _ := None;
|}.
End DemoAnimpoint.

Module DemoMore.
(** The store of [Demo.online] with only the first two schemes of the stalker
    reset registered, and with every scheme but the walker registered. *)
Definition two_schemes : World :=
  {| actor := Some Demo.player; objects := objects Demo.online; offlineObjects := ∅;
     schemes := [EScheme.MEET; EScheme.HELP_WOUNDED]; trace := [] |}.

Definition no_walker : World :=
  {| actor := Some Demo.player; objects := objects Demo.online; offlineObjects := ∅;
     schemes := reset_impls STALKER; trace := [] |}.

(** A bloodsucker with its state. *)
Definition bloodsucker : GameObject :=
  {| id := 2; name := "bloodsucker"; clsid := 7; level_vertex_id := 40 |}.

Definition monster_state : IRegistryObjectState :=
  {| ini := Demo.ltx; activeSection := None; activeScheme := None;
     schemeType := MONSTER; overrides := None;
     activationTime := None; activationGameTime := None |}.

Definition lair : World :=
  {| actor := Some Demo.player; objects := {[ 2 := monster_state ]}; offlineObjects := ∅;
     schemes := Demo.all_schemes; trace := [] |}.
End DemoMore.

(** * Properties *)

Section Properties.
Context {engine : Engine}.
Implicit Types (w : World) (object : GameObject) (ini : IniFile).
Implicit Types (section : TSection) (state : IRegistryObjectState).

(** ** Running the monad *)

(** Membership in a literal list. *)
Ltac solve_member :=
  solve [repeat first [apply list_elem_of_here | apply list_elem_of_further]].

Ltac unfold_monad :=
  unfold mbind, M_bind, mret, M_ret, abort, assert, assert_some, call,
    registered in *.

Lemma bind_run {A B} (m : M A) (k : A → M B) w :
  (m ≫= k) w =
  match m w with
  | (Ok a, w') => k a w'
  | (Err e, w') => (Err e, w')
  end.
Proof. reflexivity. Qed.

Lemma log_log calls1 calls2 w : log calls2 (log calls1 w) = log (calls1 ++ calls2) w.
Proof. unfold log; cbn. by rewrite app_assoc. Qed.

Lemma lookup_put_state object state w :
  objects (put_state object state w) !! id object = Some state.
Proof. cbn. apply lookup_insert_eq. Qed.

Lemma put_put_state object state1 state2 w :
  put_state object state2 (put_state object state1 w) = put_state object state2 w.
Proof. unfold put_state; cbn. by rewrite insert_insert_eq. Qed.

Lemma write_state_run object update state w :
  objects w !! id object = Some state →
  write_state object update w = (Ok tt, put_state object (update state) w).
Proof. intros Hstate. unfold write_state. by rewrite Hstate. Qed.

Lemma log_nil_eq w : log [] w = w.
Proof. destruct w. unfold log; cbn. by rewrite app_nil_r. Qed.

Lemma write_state_bind {B} object update (k : M B) w :
  (write_state object update ;; k) w =
  match objects w !! id object with
  | Some state => k (put_state object (update state) w)
  | None => (Err NilIndex, w)
  end.
Proof.
  unfold mbind, M_bind, write_state. by destruct (objects w !! id object).
Qed.

Lemma read_state_bind {A B} object (field : IRegistryObjectState → A) (k : A → M B) w :
  (read_state object field ≫= k) w =
  match objects w !! id object with
  | Some state => k (field state) w
  | None => (Err NilIndex, w)
  end.
Proof.
  unfold mbind, M_bind, read_state. by destruct (objects w !! id object).
Qed.

Lemma ret_bind {A B} (a : A) (k : A → M B) w : (mret a ≫= k) w = k a w.
Proof. reflexivity. Qed.

Lemma call_bind {B} c (k : M B) w : (call c ;; k) w = k (log [c] w).
Proof. reflexivity. Qed.

Lemma scheme_reset_run impl object scheme section w :
  scheme_reset impl object scheme section w =
  if bool_decide (impl ∈ schemes w)
  then (Ok tt, log [SchemeReset impl (id object) scheme section] w)
  else (Err NilIndex, w).
Proof.
  unfold scheme_reset. unfold_monad. by destruct (bool_decide (impl ∈ schemes w)).
Qed.

Lemma scheme_reset_bind {B} impl object scheme section (k : M B) w :
  (scheme_reset impl object scheme section ;; k) w =
  if bool_decide (impl ∈ schemes w)
  then k (log [SchemeReset impl (id object) scheme section] w)
  else (Err NilIndex, w).
Proof.
  rewrite bind_run, scheme_reset_run. by destruct (bool_decide (impl ∈ schemes w)).
Qed.

(** ** What a computation leaves alone *)

Section Keeps.
Context {X : Type} (obs : World → X).

Lemma keeps_ret {A} (a : A) : keeps obs (mret a).
Proof. by intros w. Qed.

Lemma keeps_abort {A} e : keeps obs (abort e : M A).
Proof. by intros w. Qed.

Lemma keeps_assert condition e : keeps obs (assert condition e).
Proof. by destruct condition. Qed.

Lemma keeps_assert_some {A} (value : option A) e : keeps obs (assert_some value e).
Proof. by destruct value. Qed.

Lemma keeps_bind {A B} (m : M A) (k : A → M B) :
  keeps obs m → (∀ a, keeps obs (k a)) → keeps obs (m ≫= k).
Proof.
  intros Hm Hk w. rewrite bind_run. specialize (Hm w).
  destruct (m w) as [[a|e] w1]; cbn in *; [|done].
  by rewrite Hk.
Qed.

Lemma keeps_read_state {A} object (field : IRegistryObjectState → A) :
  keeps obs (read_state object field).
Proof. intros w. unfold read_state. by destruct (objects w !! id object). Qed.

Lemma keeps_registered impl : keeps obs (registered impl).
Proof. by intros w. Qed.

Lemma keeps_call c : (∀ w, obs (log [c] w) = obs w) → keeps obs (call c).
Proof. intros Hc w. apply Hc. Qed.

Lemma keeps_write_state object update :
  (∀ state w, objects w !! id object = Some state →
              obs (put_state object (update state) w) = obs w) →
  keeps obs (write_state object update).
Proof.
  intros Hupdate w. unfold write_state.
  destruct (objects w !! id object) as [state|] eqn:Hstate; [|done].
  by apply Hupdate.
Qed.
End Keeps.

Lemma quiet_keeps {A} (m : M A) : keeps trace m → quiet m.
Proof. intros Hm w. exists []. by rewrite Hm, app_nil_r. Qed.

Lemma quiet_call c : is_activation c = false → quiet (call c).
Proof. intros Hc w. exists [c]. cbn. by rewrite Hc. Qed.

Lemma quiet_bind {A B} (m : M A) (k : A → M B) :
  quiet m → (∀ a, quiet (k a)) → quiet (m ≫= k).
Proof.
  intros Hm Hk w. rewrite bind_run. destruct (Hm w) as (calls1 & Htrace1 & Hcalls1).
  destruct (m w) as [[a|e] w1]; cbn in *; [|by exists calls1].
  destruct (Hk a w1) as (calls2 & Htrace2 & Hcalls2).
  exists (calls1 ++ calls2). rewrite Htrace2, Htrace1, forallb_app, Hcalls1, Hcalls2.
  by rewrite app_assoc.
Qed.

Create HintDb keeps discriminated.

#[local] Hint Resolve keeps_ret keeps_abort keeps_assert keeps_assert_some
  keeps_read_state keeps_registered : keeps.

(** Splits a computation along its binds and branches. *)
Ltac keeps_step :=
  match goal with
  | |- keeps _ (_ ≫= _) => apply keeps_bind; [|intros ?]
  | |- keeps _ (call _) => apply keeps_call; reflexivity
  | |- keeps trace (write_state _ _) => apply keeps_write_state; reflexivity
  | |- keeps _ (match ?x with _ => _ end) => destruct x
  | |- keeps _ _ => solve [auto with keeps]
  | |- quiet (_ ≫= _) => apply quiet_bind; [|intros ?]
  | |- quiet (call _) => apply quiet_call; reflexivity
  | |- quiet (match ?x with _ => _ end) => destruct x
  | |- quiet _ => solve [apply quiet_keeps; auto with keeps]
  end.

(** ** isActiveSection *)

(** The comparison reads the state and changes nothing. *)
Lemma isActiveSection_pure object (section : option TSection) state w :
  objects w !! id object = Some state →
  isActiveSection object section w = (Ok (bool_decide (section = activeSection state)), w).
Proof.
  intros Hstate. unfold isActiveSection. by rewrite read_state_bind, Hstate.
Qed.

(** ** The generic reset *)

Lemma scheme_reset_keeps {X} (obs : World → X) impl object scheme section :
  (∀ c w, obs (log [c] w) = obs w) →
  keeps obs (scheme_reset impl object scheme section).
Proof.
  intros Hobs. unfold scheme_reset. repeat keeps_step. by apply keeps_call.
Qed.

Lemma scheme_reset_quiet impl object scheme section :
  quiet (scheme_reset impl object scheme section).
Proof. unfold scheme_reset. repeat keeps_step. Qed.

Lemma resetObjectGenericSchemesOnSectionSwitch_keeps {X} (obs : World → X)
    object scheme section :
  (∀ c w, obs (log [c] w) = obs w) →
  keeps obs (resetObjectGenericSchemesOnSectionSwitch object scheme section).
Proof.
  intros Hobs. unfold resetObjectGenericSchemesOnSectionSwitch.
  repeat first [apply scheme_reset_keeps; [done] | by apply keeps_call | keeps_step].
Qed.

Lemma resetObjectGenericSchemesOnSectionSwitch_quiet object scheme section :
  quiet (resetObjectGenericSchemesOnSectionSwitch object scheme section).
Proof.
  unfold resetObjectGenericSchemesOnSectionSwitch.
  repeat first [apply scheme_reset_quiet | keeps_step].
Qed.

(** Runs the head [scheme_reset], [call] or [read_state] of a computation in
    the goal. *)
Ltac run_reset Hregistered Hstate :=
  repeat first
    [ rewrite scheme_reset_bind, bool_decide_eq_true_2
        by (cbn [schemes log]; apply Hregistered; solve_member)
    | rewrite scheme_reset_run, bool_decide_eq_true_2
        by (cbn [schemes log]; apply Hregistered; solve_member)
    | rewrite call_bind
    | rewrite read_state_bind; cbn [objects log]; rewrite Hstate ];
  unfold call; rewrite ?log_log.

Lemma resetObjectGenericSchemesOnSectionSwitch_run object scheme section state w :
  objects w !! id object = Some state →
  all_registered (reset_impls (schemeType state)) w →
  resetObjectGenericSchemesOnSectionSwitch object scheme section w =
  (Ok tt, log (reset_calls object state scheme section) w).
Proof.
  intros Hstate Hregistered.
  unfold resetObjectGenericSchemesOnSectionSwitch, reset_calls.
  rewrite read_state_bind, Hstate.
  destruct (schemeType state).
  - by run_reset Hregistered Hstate.
  - rewrite call_bind. case_bool_decide.
    + by run_reset Hregistered Hstate.
    + rewrite ret_bind. by run_reset Hregistered Hstate.
  - by run_reset Hregistered Hstate.
  - by rewrite log_nil_eq.
Qed.

(** Membership in a literal list of schemes, from facts about each member. *)
Ltac solve_registered :=
  let impl := fresh "impl" in
  let Himpl := fresh "Himpl" in
  intros impl Himpl;
  repeat (apply elem_of_cons in Himpl as [->|Himpl]; [assumption|]);
  by apply elem_of_nil in Himpl.

Lemma resetObjectGenericSchemesOnSectionSwitch_ok object scheme section w w' :
  resetObjectGenericSchemesOnSectionSwitch object scheme section w = (Ok tt, w') →
  ∃ state, objects w !! id object = Some state ∧
           all_registered (reset_impls (schemeType state)) w.
Proof.
  unfold resetObjectGenericSchemesOnSectionSwitch. rewrite read_state_bind.
  destruct (objects w !! id object) as [state|]; [|done].
  intros Hrun. exists state. split; [done|].
  destruct (schemeType state); unfold all_registered, reset_impls.
  - repeat (rewrite ?call_bind, scheme_reset_bind in Hrun; cbn [schemes log] in Hrun;
            case_bool_decide; [|done]).
    solve_registered.
  - rewrite call_bind in Hrun.
    destruct (bool_decide (clsid object = clsid_bloodsucker_s));
      rewrite ?call_bind, ?ret_bind in Hrun;
      repeat (rewrite scheme_reset_bind in Hrun; cbn [schemes log] in Hrun;
              case_bool_decide; [|done]);
      solve_registered.
  - solve_registered.
  - solve_registered.
Qed.

(** ** activateSchemeBySection *)

Lemma bind_assoc_run {A B C} (m : M A) (k : A → M B) (k' : B → M C) w :
  ((m ≫= k) ≫= k') w = (m ≫= fun a => k a ≫= k') w.
Proof. rewrite !bind_run. by destruct (m w) as [[a|e] w1]. Qed.

(** Lines 120-123. *)
Lemma stamping_run {B} object isLoading (k : M B) state w :
  objects w !! id object = Some state →
  ((if negb isLoading
    then write_state object (set_activationTime (Some time_global));;
         write_state object (set_activationGameTime (Some get_game_time))
    else mret tt);; k) w =
  if isLoading then k w else k (put_state object (stamp isLoading state) w).
Proof.
  intros Hstate. destruct isLoading; cbn [negb]; [done|].
  rewrite bind_assoc_run, write_state_bind, Hstate.
  rewrite write_state_bind, lookup_put_state, put_put_state. done.
Qed.

Lemma put_state_log object state calls w :
  put_state object state (log calls w) = log calls (put_state object state w).
Proof. reflexivity. Qed.

Lemma activateSchemeBySection_null_run object ini smartTerrainName isLoading state w :
  objects w !! id object = Some state →
  all_registered (reset_impls (schemeType state)) w →
  activateSchemeBySection object ini (Some NIL) smartTerrainName isLoading w =
  (Ok tt, unbound object state isLoading w).
Proof.
  intros Hstate Hregistered. unfold activateSchemeBySection, unbound.
  rewrite (stamping_run _ _ _ state) by done.
  rewrite bool_decide_eq_true_2 by done.
  assert (∀ w1 state1,
    objects w1 !! id object = Some state1 →
    all_registered (reset_impls (schemeType state1)) w1 →
    (write_state object (set_overrides None);;
     resetObjectGenericSchemesOnSectionSwitch object EScheme.NIL NIL;;
     write_state object (set_activeSection None);;
     write_state object (set_activeScheme None)) w1 =
    (Ok tt, log (reset_calls object state1 EScheme.NIL NIL)
              (put_state object
                 (set_activeScheme None (set_activeSection None
                    (set_overrides None state1))) w1))) as Hrest.
  { intros w1 state1 Hstate1 Hregistered1.
    rewrite write_state_bind, Hstate1, bind_run.
    rewrite (resetObjectGenericSchemesOnSectionSwitch_run _ _ _ (set_overrides None state1));
      [|apply lookup_put_state|done].
    rewrite write_state_bind. cbn [objects log]. rewrite lookup_put_state.
    rewrite (write_state_run _ _ (set_activeSection None (set_overrides None state1)));
      [|rewrite put_state_log; cbn [objects log]; apply lookup_put_state].
    by rewrite !put_state_log, !put_put_state. }
  destruct isLoading.
  - by apply Hrest.
  - rewrite (Hrest _ (stamp false state)); [|apply lookup_put_state|done].
    by rewrite put_put_state.
Qed.

(** Lines 136-143. *)
Lemma resolution_run {B} object (section : option TSection) (k : option TSection → M B) w :
  (match section with
   | None =>
       currentSmartTerrain ← assert_some (getObjectTerrain object) NotInSmartTerrain;
       mret (job_section <$> getTerrainJobByObjectId currentSmartTerrain (id object))
   | Some name => mret (Some name)
   end ≫= k) w =
  match section, getObjectTerrain object with
  | None, None => (Err NotInSmartTerrain, w)
  | _, _ => k (resolve_section object section) w
  end.
Proof.
  unfold resolve_section. destruct section as [name|]; [done|].
  by destruct (getObjectTerrain object).
Qed.

(** Lines 150-169, past the assertions on the section and its scheme. *)
Lemma switch_run object ini section scheme smartTerrainName isLoading state w :
  objects w !! id object = Some state →
  all_registered (reset_impls (schemeType state)) w →
  scheme ∈ schemes w →
  (write_state object (set_overrides (Some (getObjectConfigOverrides ini section object)));;
   resetObjectGenericSchemesOnSectionSwitch object scheme section;;
   schemeImplementation ← registered scheme;
   assert schemeImplementation SchemeNotRegistered;;
   call (SchemeActivate scheme (id object) ini scheme (Some section) smartTerrainName);;
   write_state object (set_activeSection (Some section));;
   write_state object (set_activeScheme (Some scheme));;
   type ← read_state object schemeType;
   (if bool_decide (type = STALKER)
    then call (SendToNearestAccessibleVertex (id object) (level_vertex_id object))
    else mret tt);;
   call (EmitSchemeEvent (id object) scheme ACTIVATE isLoading)) w =
  (Ok tt,
   log (activation_calls object ini state section scheme smartTerrainName isLoading)
     (put_state object
        (set_activeScheme (Some scheme) (set_activeSection (Some section)
           (set_overrides (Some (getObjectConfigOverrides ini section object)) state)))
        w)).
Proof.
  intros Hstate Hregistered Hscheme.
  rewrite write_state_bind, Hstate, bind_run.
  rewrite (resetObjectGenericSchemesOnSectionSwitch_run _ _ _
             (set_overrides (Some (getObjectConfigOverrides ini section object)) state));
    [|apply lookup_put_state|done].
  rewrite bind_run. unfold registered at 1. cbn [schemes log put_state].
  rewrite bool_decide_eq_true_2 by done.
  unfold assert at 1. rewrite ret_bind, call_bind.
  rewrite write_state_bind. cbn [objects log]. rewrite lookup_put_state.
  rewrite write_state_bind. cbn [objects log put_state]. rewrite lookup_insert_eq.
  rewrite read_state_bind. cbn [objects log put_state]. rewrite lookup_insert_eq.
  cbn [schemeType set_activeScheme set_activeSection set_overrides].
  unfold activation_calls, put_state, log; cbn.
  rewrite !insert_insert_eq.
  change (reset_calls object (set_overrides _ state) scheme section)
    with (reset_calls object state scheme section).
  destruct (bool_decide (schemeType state = STALKER)); unfold_monad; cbn;
    unfold log; cbn; by rewrite <- !app_assoc.
Qed.

Lemma activateSchemeBySection_bound_run object ini (section : option TSection)
    smartTerrainName isLoading state name scheme w :
  objects w !! id object = Some state →
  section ≠ Some NIL →
  (section = None → is_Some (getObjectTerrain object)) →
  resolve_section object section = Some name →
  getSchemeFromSection (Some name) = Some scheme →
  section_exist ini name = true →
  all_registered (reset_impls (schemeType state)) w →
  scheme ∈ schemes w →
  activateSchemeBySection object ini section smartTerrainName isLoading w =
  (Ok tt, bound object ini state name scheme smartTerrainName isLoading w).
Proof.
  intros Hstate Hnil Hterrain Hname Hscheme Hexist Hregistered Himpl.
  unfold activateSchemeBySection, bound.
  rewrite (stamping_run _ _ _ state) by done.
  rewrite bool_decide_eq_false_2 by done.
  assert (∀ w1,
    (section0 ←
       match section with
       | None =>
           currentSmartTerrain ← assert_some (getObjectTerrain object) NotInSmartTerrain;
           mret (job_section <$> getTerrainJobByObjectId currentSmartTerrain (id object))
       | Some name => mret (Some name)
       end;
     scheme0 ← assert_some (getSchemeFromSection section0) UnresolvedScheme;
     section1 ← assert_section_exist ini section0;
     write_state object
       (set_overrides (Some (getObjectConfigOverrides ini section1 object)));;
     resetObjectGenericSchemesOnSectionSwitch object scheme0 section1;;
     schemeImplementation ← registered scheme0;
     assert schemeImplementation SchemeNotRegistered;;
     call (SchemeActivate scheme0 (id object) ini scheme0 (Some section1) smartTerrainName);;
     write_state object (set_activeSection (Some section1));;
     write_state object (set_activeScheme (Some scheme0));;
     type ← read_state object schemeType;
     (if bool_decide (type = STALKER)
      then call (SendToNearestAccessibleVertex (id object) (level_vertex_id object))
      else mret tt);;
     call (EmitSchemeEvent (id object) scheme0 ACTIVATE isLoading)) w1 =
    (write_state object (set_overrides (Some (getObjectConfigOverrides ini name object)));;
     resetObjectGenericSchemesOnSectionSwitch object scheme name;;
     schemeImplementation ← registered scheme;
     assert schemeImplementation SchemeNotRegistered;;
     call (SchemeActivate scheme (id object) ini scheme (Some name) smartTerrainName);;
     write_state object (set_activeSection (Some name));;
     write_state object (set_activeScheme (Some scheme));;
     type ← read_state object schemeType;
     (if bool_decide (type = STALKER)
      then call (SendToNearestAccessibleVertex (id object) (level_vertex_id object))
      else mret tt);;
     call (EmitSchemeEvent (id object) scheme ACTIVATE isLoading)) w1) as Hresolved.
  { intros w1. rewrite resolution_run, Hname.
    destruct section as [given|];
      [|destruct (Hterrain eq_refl) as [terrain ->]];
      rewrite Hscheme; unfold assert_section_exist; rewrite Hexist;
      reflexivity. }
  rewrite !Hresolved.
  destruct isLoading.
  - rewrite (switch_run _ _ _ _ _ _ state) by done. done.
  - rewrite (switch_run _ _ _ _ _ _ (stamp false state));
      [|apply lookup_put_state|done..].
    by rewrite put_put_state.
Qed.

(** *** What a complete call went through *)

Lemma bind_ok {A B} (m : M A) (k : A → M B) w b w' :
  (m ≫= k) w = (Ok b, w') →
  ∃ a w1, m w = (Ok a, w1) ∧ k a w1 = (Ok b, w').
Proof.
  rewrite bind_run. destruct (m w) as [[a|e] w1]; [|done]. eauto.
Qed.

Lemma assert_some_ok {A} (value : option A) e w a w' :
  assert_some value e w = (Ok a, w') → value = Some a ∧ w' = w.
Proof. destruct value; [|done]. by intros [= -> ->]. Qed.

Lemma assert_ok condition e w w' :
  assert condition e w = (Ok tt, w') → condition = true ∧ w' = w.
Proof. destruct condition; [|done]. by intros [= ->]. Qed.

Lemma write_state_ok object update w w' :
  write_state object update w = (Ok tt, w') →
  ∃ state, objects w !! id object = Some state ∧
           w' = put_state object (update state) w.
Proof.
  unfold write_state. destruct (objects w !! id object) as [state|]; [|done].
  intros [= <-]. eauto.
Qed.

Lemma stamping_ok object isLoading w w' :
  (if negb isLoading
   then write_state object (set_activationTime (Some time_global));;
        write_state object (set_activationGameTime (Some get_game_time))
   else mret tt) w = (Ok tt, w') →
  schemes w' = schemes w ∧
  ∀ state', objects w' !! id object = Some state' →
    ∃ state, objects w !! id object = Some state ∧ state' = stamp isLoading state.
Proof.
  destruct isLoading; cbn [negb].
  - intros [= <-]. eauto.
  - intros ([] & w1 & (state & Hstate & ->)%write_state_ok & Hwrite)%bind_ok.
    apply write_state_ok in Hwrite as (state1 & Hstate1 & ->).
    rewrite lookup_put_state in Hstate1. injection Hstate1 as <-.
    split; [done|]. intros state'. rewrite lookup_put_state. intros [= <-]. eauto.
Qed.

Lemma resolution_ok object (section : option TSection) w resolved w' :
  match section with
  | None =>
      currentSmartTerrain ← assert_some (getObjectTerrain object) NotInSmartTerrain;
      mret (job_section <$> getTerrainJobByObjectId currentSmartTerrain (id object))
  | Some name => mret (Some name)
  end w = (Ok resolved, w') →
  (section = None → is_Some (getObjectTerrain object)) ∧
  resolve_section object section = resolved ∧ w' = w.
Proof.
  destruct section as [name|]; cbn.
  - by intros [= <- <-].
  - destruct (getObjectTerrain object) as [terrain|]; [|done].
    intros [= <- <-]. eauto.
Qed.

Lemma assert_section_exist_ok ini (section : option TSection) w name w' :
  assert_section_exist ini section w = (Ok name, w') →
  section = Some name ∧ section_exist ini name = true ∧ w' = w.
Proof.
  destruct section as [given|]; [|done]. cbn.
  destruct (section_exist ini given) eqn:Hexist; [|done].
  by intros [= <- <-].
Qed.

(** A call that returns went down one of two paths, and the store it leaves
    is determined by the state of the object before the call. *)
Lemma activateSchemeBySection_ok object ini (section : option TSection)
    smartTerrainName isLoading w w' :
  activateSchemeBySection object ini section smartTerrainName isLoading w = (Ok tt, w') →
  ∃ state,
    objects w !! id object = Some state ∧
    all_registered (reset_impls (schemeType state)) w ∧
    ((section = Some NIL ∧ w' = unbound object state isLoading w) ∨
     (section ≠ Some NIL ∧ ∃ name scheme,
        (section = None → is_Some (getObjectTerrain object)) ∧
        resolve_section object section = Some name ∧
        getSchemeFromSection (Some name) = Some scheme ∧
        section_exist ini name = true ∧
        scheme ∈ schemes w ∧
        w' = bound object ini state name scheme smartTerrainName isLoading w)).
Proof.
  intros Hrun. pose proof Hrun as Hsteps. unfold activateSchemeBySection in Hsteps.
  apply bind_ok in Hsteps as ([] & w1 & (Hschemes & Hstamp)%stamping_ok & Hsteps).
  case_bool_decide as Hnil.
  - apply bind_ok in Hsteps as ([] & w2 & (state1 & Hstate1 & ->)%write_state_ok & Hsteps).
    apply bind_ok in Hsteps as ([] & w3 & Hreset & _).
    apply resetObjectGenericSchemesOnSectionSwitch_ok in Hreset
      as (state2 & Hstate2 & Hregistered).
    rewrite lookup_put_state in Hstate2. injection Hstate2 as <-.
    destruct (Hstamp _ Hstate1) as (state & Hstate & ->).
    assert (all_registered (reset_impls (schemeType state)) w) as Hall.
    { intros impl Himpl. rewrite <- Hschemes. apply Hregistered.
      by destruct isLoading. }
    exists state. split_and!; [done..|]. left. split; [done|].
    subst section.
    rewrite (activateSchemeBySection_null_run _ _ _ _ state) in Hrun by done.
    by injection Hrun.
  - apply bind_ok in Hsteps
      as (resolved & w2 & (Hterrain & Hresolved & ->)%resolution_ok & Hsteps).
    apply bind_ok in Hsteps as (scheme & w2 & (Hscheme & ->)%assert_some_ok & Hsteps).
    apply bind_ok in Hsteps
      as (name & w2 & (-> & Hexist & ->)%assert_section_exist_ok & Hsteps).
    apply bind_ok in Hsteps as ([] & w2 & (state1 & Hstate1 & ->)%write_state_ok & Hsteps).
    apply bind_ok in Hsteps as ([] & w3 & Hreset & Hsteps).
    pose proof (resetObjectGenericSchemesOnSectionSwitch_keeps schemes object scheme name
                  (fun _ _ => eq_refl) (put_state object
                     (set_overrides (Some (getObjectConfigOverrides ini name object)) state1)
                     w1)) as Hkept.
    rewrite Hreset in Hkept. cbn in Hkept.
    apply resetObjectGenericSchemesOnSectionSwitch_ok in Hreset
      as (state2 & Hstate2 & Hregistered).
    rewrite lookup_put_state in Hstate2. injection Hstate2 as <-.
    apply bind_ok in Hsteps as (found & w4 & [= <- <-] & Hsteps).
    apply bind_ok in Hsteps as ([] & w4 & (Hfound & ->)%assert_ok & _).
    apply bool_decide_eq_true_1 in Hfound. rewrite Hkept, Hschemes in Hfound.
    destruct (Hstamp _ Hstate1) as (state & Hstate & ->).
    assert (all_registered (reset_impls (schemeType state)) w) as Hall.
    { intros impl Himpl. rewrite <- Hschemes. apply Hregistered.
      by destruct isLoading. }
    exists state. split_and!; [done..|]. right. split; [done|].
    exists name, scheme. split_and!; [done..|].
    rewrite (activateSchemeBySection_bound_run _ _ _ _ _ state name scheme) in Hrun by done.
    by injection Hrun.
Qed.

Lemma reset_calls_quiet object state scheme section :
  forallb (fun c => negb (is_activation c)) (reset_calls object state scheme section) = true.
Proof.
  unfold reset_calls. destruct (schemeType state); [done| |done..].
  by case_bool_decide.
Qed.

(** C1. Whatever the section asked for and whether loading or not:
    every call that returns leaves the state of the object with no active
    section exactly when it has no active scheme.  The null branch does
    return on an object with a state whose reset schemes are registered, and
    clears both, whatever they were before.  The other branch does return
    when moreover the section asked for (or the one of the job, for a null
    section) exists in the ini and resolves to a registered scheme, and sets
    both: the active section is that section and the active scheme is the
    scheme it resolves to.  A call that returns went through one of the two,
    and left the states of the other objects as they were. *)
Theorem activateSchemeBySection_section_iff_scheme object ini (section : option TSection)
    smartTerrainName isLoading w :
  (∀ state,
     objects w !! id object = Some state →
     all_registered (reset_impls (schemeType state)) w →
     section = Some NIL →
     ∃ w' state',
       activateSchemeBySection object ini section smartTerrainName isLoading w
       = (Ok tt, w') ∧
       objects w' !! id object = Some state' ∧
       activeSection state' = None ∧ activeScheme state' = None) ∧
  (∀ state name scheme,
     objects w !! id object = Some state →
     all_registered (reset_impls (schemeType state)) w →
     section ≠ Some NIL →
     (section = None → is_Some (getObjectTerrain object)) →
     resolve_section object section = Some name →
     getSchemeFromSection (Some name) = Some scheme →
     section_exist ini name = true →
     scheme ∈ schemes w →
     ∃ w' state',
       activateSchemeBySection object ini section smartTerrainName isLoading w
       = (Ok tt, w') ∧
       objects w' !! id object = Some state' ∧
       activeSection state' = Some name ∧ activeScheme state' = Some scheme) ∧
  (∀ w',
     activateSchemeBySection object ini section smartTerrainName isLoading w
     = (Ok tt, w') →
     (∃ state', objects w' !! id object = Some state' ∧
        (activeSection state' = None ↔ activeScheme state' = None) ∧
        (section = Some NIL →
         activeSection state' = None ∧ activeScheme state' = None) ∧
        (section ≠ Some NIL →
         ∃ name scheme,
           resolve_section object section = Some name ∧
           getSchemeFromSection (Some name) = Some scheme ∧
           activeSection state' = Some name ∧ activeScheme state' = Some scheme)) ∧
     (∀ other, other ≠ id object → objects w' !! other = objects w !! other)).
Proof.
  split_and!.
  - intros state Hstate Hregistered ->.
    exists (unbound object state isLoading w). eexists.
    split; [by apply activateSchemeBySection_null_run|].
    split; [apply lookup_put_state|]. done.
  - intros state name scheme Hstate Hregistered Hnil Hterrain Hname Hscheme Hexist Himpl.
    exists (bound object ini state name scheme smartTerrainName isLoading w). eexists.
    split; [by apply activateSchemeBySection_bound_run|].
    split; [apply lookup_put_state|]. done.
  - intros w'
      (state & Hstate & _ &
       [[Hnil ->]|(Hnil & name & scheme & _ & Hname & Hscheme & _ & _ & ->)])
      %activateSchemeBySection_ok.
    + split.
      * eexists. split; [apply lookup_put_state|]. cbn. by split_and!.
      * intros other Hother. cbn. by apply lookup_insert_ne.
    + split.
      * eexists. split; [apply lookup_put_state|]. cbn.
        split_and!; [done|done|]. intros _. by exists name, scheme.
      * intros other Hother. cbn. by apply lookup_insert_ne.
Qed.

Lemma null_section_quiet object ini smartTerrainName isLoading :
  quiet (activateSchemeBySection object ini (Some NIL) smartTerrainName isLoading).
Proof.
  unfold activateSchemeBySection. rewrite bool_decide_eq_true_2 by done.
  repeat first
    [ apply resetObjectGenericSchemesOnSectionSwitch_quiet
    | apply quiet_keeps, keeps_write_state; reflexivity
    | keeps_step ].
Qed.

(** C2. A call with the null section never appends a scheme activation or an
    activation event to the trace, and on an object with a state it leaves the
    overrides empty even when it fails later.  When it returns, the calls it
    made are those of the generic reset with scheme NIL and section NIL, and
    the overrides, the active section and the active scheme are empty.  It
    does return when the object has a state and the schemes of the generic
    reset are registered. *)
Theorem activateSchemeBySection_null_section object ini smartTerrainName isLoading w :
  (∃ calls,
     trace (activateSchemeBySection object ini (Some NIL) smartTerrainName isLoading w).2 =
     trace w ++ calls ∧
     forallb (fun c => negb (is_activation c)) calls = true) ∧
  (∀ state, objects w !! id object = Some state →
     overrides <$>
       objects (activateSchemeBySection object ini (Some NIL) smartTerrainName isLoading w).2
         !! id object = Some None) ∧
  (∀ w', activateSchemeBySection object ini (Some NIL) smartTerrainName isLoading w
         = (Ok tt, w') →
     ∃ state state',
       objects w !! id object = Some state ∧
       objects w' !! id object = Some state' ∧
       overrides state' = None ∧ activeSection state' = None ∧
       activeScheme state' = None ∧
       trace w' = trace w ++ reset_calls object state EScheme.NIL NIL) ∧
  (∀ state, objects w !! id object = Some state →
     all_registered (reset_impls (schemeType state)) w →
     activateSchemeBySection object ini (Some NIL) smartTerrainName isLoading w =
       (Ok tt, unbound object state isLoading w) ∧
     resetObjectGenericSchemesOnSectionSwitch object EScheme.NIL NIL w =
       (Ok tt, log (reset_calls object state EScheme.NIL NIL) w)).
Proof.
  split_and!.
  - apply null_section_quiet.
  - intros state Hstate. unfold activateSchemeBySection.
    rewrite (stamping_run _ _ _ state) by done.
    rewrite bool_decide_eq_true_2 by done.
    assert (∀ w1 state1, objects w1 !! id object = Some state1 →
      overrides <$> objects
        ((write_state object (set_overrides None);;
          resetObjectGenericSchemesOnSectionSwitch object EScheme.NIL NIL;;
          write_state object (set_activeSection None);;
          write_state object (set_activeScheme None)) w1).2 !! id object = Some None)
      as Hrest.
    { intros w1 state1 Hstate1. rewrite write_state_bind, Hstate1.
      pose proof (keeps_bind (fun w => overrides <$> objects w !! id object)
        (resetObjectGenericSchemesOnSectionSwitch object EScheme.NIL NIL)
        (fun _ => write_state object (set_activeSection None);;
                  write_state object (set_activeScheme None))) as Hkeeps.
      rewrite Hkeeps.
      - by rewrite lookup_put_state.
      - by apply resetObjectGenericSchemesOnSectionSwitch_keeps.
      - intros _. apply keeps_bind; [|intros _];
          apply keeps_write_state; intros state2 w2 Hstate2;
          by rewrite lookup_put_state, Hstate2. }
    destruct isLoading; eapply Hrest; [done|apply lookup_put_state].
  - intros w' (state & Hstate & _ & [[_ ->]|[Hnil _]])%activateSchemeBySection_ok; [|done].
    eexists state, _. split_and!; [done|apply lookup_put_state|done..].
  - intros state Hstate Hregistered. split.
    + by apply activateSchemeBySection_null_run.
    + by apply resetObjectGenericSchemesOnSectionSwitch_run.
Qed.

(** C5. In every call with a section other than the null one that returns,
    the trace grows by the calls of the generic reset for the type of the
    object, then the activate of the scheme the section resolves to, then, for
    a stalker, the move to the nearest vertex, and last the activation event
    on the slot of that scheme.  The reset calls are the ones
    [resetObjectGenericSchemesOnSectionSwitch] makes on the store of the call,
    and neither they nor the move activate a scheme: every reset call comes
    before the activate, and the event after it. *)
Theorem activateSchemeBySection_order object ini (section : option TSection)
    smartTerrainName isLoading w w' :
  section ≠ Some NIL →
  activateSchemeBySection object ini section smartTerrainName isLoading w = (Ok tt, w') →
  ∃ state name scheme between,
    objects w !! id object = Some state ∧
    resolve_section object section = Some name ∧
    getSchemeFromSection (Some name) = Some scheme ∧
    resetObjectGenericSchemesOnSectionSwitch object scheme name w =
      (Ok tt, log (reset_calls object state scheme name) w) ∧
    trace w' =
      trace w ++ reset_calls object state scheme name
      ++ [SchemeActivate scheme (id object) ini scheme (Some name) smartTerrainName]
      ++ between
      ++ [EmitSchemeEvent (id object) scheme ACTIVATE isLoading] ∧
    forallb (fun c => negb (is_activation c)) (reset_calls object state scheme name) = true ∧
    forallb (fun c => negb (is_activation c)) between = true.
Proof.
  intros Hnil
    (state & Hstate & Hregistered & [[? _]|(_ & name & scheme & _ & Hname & Hscheme & _ & _ & ->)])
    %activateSchemeBySection_ok; [done|].
  exists state, name, scheme.
  exists (if bool_decide (schemeType state = STALKER)
          then [SendToNearestAccessibleVertex (id object) (level_vertex_id object)]
          else []).
  split_and!; [done..| |done| |].
  - by apply resetObjectGenericSchemesOnSectionSwitch_run.
  - apply reset_calls_quiet.
  - by case_bool_decide.
Qed.

Lemma keeps_after {X A B} (obs : World → X) (m : M A) (k : A → M B) w :
  (∀ a, keeps obs (k a)) → obs ((m ≫= k) w).2 = obs (m w).2.
Proof.
  intros Hk. rewrite bind_run. destruct (m w) as [[a|e] w1]; [|done]. apply Hk.
Qed.

Lemma write_state_keeps_stamps object update :
  (∀ state, activationTime (update state) = activationTime state) →
  (∀ state, activationGameTime (update state) = activationGameTime state) →
  keeps (stamps object) (write_state object update).
Proof.
  intros Htime Hgame. apply keeps_write_state. intros state w Hstate.
  unfold stamps. rewrite lookup_put_state, Hstate. cbn. by rewrite Htime, Hgame.
Qed.

(** C6. On an object with a state, whatever the section and however the call
    ends: when not loading, the two timestamps of the state are the current
    time and game time after the call; when loading, they are the ones the
    state had before the call. *)
Theorem activateSchemeBySection_timestamps object ini (section : option TSection)
    smartTerrainName isLoading state w :
  objects w !! id object = Some state →
  stamps object
    (activateSchemeBySection object ini section smartTerrainName isLoading w).2 =
  Some (if isLoading
        then (activationTime state, activationGameTime state)
        else (Some time_global, Some get_game_time)).
Proof.
  intros Hstate. unfold activateSchemeBySection. rewrite keeps_after.
  - destruct isLoading; cbn [negb].
    + unfold stamps. cbn. by rewrite Hstate.
    + rewrite write_state_bind, Hstate.
      rewrite (write_state_run _ _ (set_activationTime (Some time_global) state))
        by apply lookup_put_state.
      unfold stamps. cbn [snd]. by rewrite lookup_put_state.
  - intros _. unfold assert_section_exist.
    repeat first
      [ apply resetObjectGenericSchemesOnSectionSwitch_keeps; reflexivity
      | apply write_state_keeps_stamps; reflexivity
      | keeps_step ].
Qed.

(** C7. On an object whose active section is [name] (other than the null
    sentinel), a call with [name] that can go through, that is when [name]
    exists in the ini and resolves to a registered scheme and the schemes of
    the generic reset are registered, does go through: it returns, and the
    trace grows by the whole generic reset, the activate of the scheme and
    the activation event.  The store it leaves and the calls it makes are
    those of the same call on an object with any other active section and
    scheme: the current section is not looked at. *)
Theorem activateSchemeBySection_same_section object ini name scheme
    smartTerrainName isLoading state w :
  objects w !! id object = Some state →
  activeSection state = Some name →
  name ≠ NIL →
  getSchemeFromSection (Some name) = Some scheme →
  section_exist ini name = true →
  all_registered (reset_impls (schemeType state)) w →
  scheme ∈ schemes w →
  activateSchemeBySection object ini (Some name) smartTerrainName isLoading w =
    (Ok tt, bound object ini state name scheme smartTerrainName isLoading w) ∧
  trace (bound object ini state name scheme smartTerrainName isLoading w) =
    trace w ++ reset_calls object state scheme name
    ++ [SchemeActivate scheme (id object) ini scheme (Some name) smartTerrainName]
    ++ (if bool_decide (schemeType state = STALKER)
        then [SendToNearestAccessibleVertex (id object) (level_vertex_id object)]
        else [])
    ++ [EmitSchemeEvent (id object) scheme ACTIVATE isLoading] ∧
  resetObjectGenericSchemesOnSectionSwitch object scheme name w =
    (Ok tt, log (reset_calls object state scheme name) w) ∧
  ∀ otherSection otherScheme,
    activateSchemeBySection object ini (Some name) smartTerrainName isLoading
      (put_state object
         (set_activeScheme otherScheme (set_activeSection otherSection state)) w) =
    (Ok tt, bound object ini state name scheme smartTerrainName isLoading w).
Proof.
  intros Hstate Hactive Hnil Hscheme Hexist Hregistered Himpl.
  assert (Some name ≠ Some NIL) as Hsome by congruence.
  split_and!.
  - by apply activateSchemeBySection_bound_run.
  - done.
  - by apply resetObjectGenericSchemesOnSectionSwitch_run.
  - intros otherSection otherScheme.
    rewrite (activateSchemeBySection_bound_run _ _ _ _ _
               (set_activeScheme otherScheme (set_activeSection otherSection state))
               name scheme); [|apply lookup_put_state|done..].
    unfold bound. rewrite put_put_state. by destruct isLoading.
Qed.

(** ** enableObjectBaseSchemes *)

Lemma scheme_activate_bind {B} impl object ini scheme (section : option TSection)
    smartTerrainName (k : M B) w :
  (scheme_activate impl object ini scheme section smartTerrainName ;; k) w =
  if bool_decide (impl ∈ schemes w)
  then k (log [SchemeActivate impl (id object) ini scheme section smartTerrainName] w)
  else (Err NilIndex, w).
Proof.
  unfold scheme_activate. unfold_monad. by destruct (bool_decide (impl ∈ schemes w)).
Qed.

Lemma scheme_activate_run impl object ini scheme (section : option TSection)
    smartTerrainName w :
  impl ∈ schemes w →
  scheme_activate impl object ini scheme section smartTerrainName w =
  (Ok tt, log [SchemeActivate impl (id object) ini scheme section smartTerrainName] w).
Proof.
  intros Himpl. unfold scheme_activate. unfold_monad. by rewrite bool_decide_eq_true_2.
Qed.

Lemma readIniString_bind {B} ini section field (k : option string → M B) w :
  (readIniString ini section field false ≫= k) w = k (read_field ini section field) w.
Proof.
  unfold readIniString, read_field.
  by destruct (section_exist ini section && line_exist ini section field).
Qed.

(** C9, amended.  For a stalker, with the base schemes registered,
    [enableObjectBaseSchemes] returns for every ini and logic section,
    whichever fields the section lacks.  Without an info field the info
    initialization is skipped and without an on_hit field the hit scheme is not
    activated; the combat, wounded, meet and death schemes are activated in
    either case, with a null section when their field is absent. *)
Theorem enableObjectBaseSchemes_stalker_absent_fields object ini logicsSection w :
  all_registered stalker_base_impls w →
  enableObjectBaseSchemes object ini STALKER logicsSection w =
    (Ok tt, log (stalker_base_calls object ini logicsSection) w) ∧
  (read_field ini logicsSection "info" = None →
   forallb (fun c => negb (initializes_info c))
     (stalker_base_calls object ini logicsSection) = true) ∧
  (read_field ini logicsSection "on_hit" = None →
   forallb (fun c => negb (activates EScheme.HIT c))
     (stalker_base_calls object ini logicsSection) = true) ∧
  (∀ impl field,
     (impl, field) ∈ [(EScheme.COMBAT, "on_combat"%string); (EScheme.WOUNDED, "wounded"%string);
                      (EScheme.MEET, "meet"%string); (EScheme.DEATH, "on_death"%string)] →
     SchemeActivate impl (id object) ini impl (read_field ini logicsSection field) None
       ∈ stalker_base_calls object ini logicsSection).
Proof.
  intros Hregistered. split_and!.
  - unfold enableObjectBaseSchemes, stalker_base_calls.
    repeat first
      [ rewrite scheme_activate_bind, bool_decide_eq_true_2
          by (cbn [schemes log]; apply Hregistered; solve_member)
      | rewrite call_bind
      | rewrite readIniString_bind ].
    destruct (read_field ini logicsSection "info") as [infoSection|];
      rewrite ?call_bind, ?ret_bind, readIniString_bind;
      destruct (read_field ini logicsSection "on_hit") as [hitSection|];
      rewrite ?ret_bind;
      repeat first
        [ rewrite scheme_activate_bind, bool_decide_eq_true_2
            by (cbn [schemes log]; apply Hregistered; solve_member)
        | rewrite call_bind
        | rewrite readIniString_bind ];
      (rewrite scheme_activate_run
         by (cbn [schemes log]; apply Hregistered; solve_member));
      by rewrite !log_log.
  - intros Hinfo. unfold stalker_base_calls. rewrite Hinfo.
    by destruct (read_field ini logicsSection "on_hit").
  - intros Hhit. unfold stalker_base_calls. rewrite Hhit.
    by destruct (read_field ini logicsSection "info").
  - intros impl field Hin. unfold stalker_base_calls.
    repeat (apply elem_of_cons in Hin as [[= -> ->]|Hin];
            [first [ apply elem_of_app; left; solve_member
                   | do 3 (apply elem_of_app; right); solve_member ]|]).
    by apply elem_of_nil in Hin.
Qed.

(** ** getSectionToActivate *)

(** Lines 81-92. *)
Lemma active_field_run object ini section w :
  match readIniConditionList ini section "active" with
  | Some condlist =>
      registryActor ← registry_actor;
      call (PickSectionFromCondList (id <$> registryActor) (id object) condlist);;
      assert_some (pickSectionFromCondList registryActor object condlist) NoElseClause
  | None => mret NIL
  end w =
  (active_field_result (actor w) object ini section,
   log (active_field_calls (actor w) object ini section) w).
Proof.
  unfold active_field_result, active_field_calls.
  destruct (readIniConditionList ini section "active") as [condlist|].
  - unfold registry_actor. rewrite bind_run, call_bind. cbn [actor log].
    by destruct (pickSectionFromCondList (actor w) object condlist).
  - by rewrite log_nil_eq.
Qed.

Lemma getSectionToActivate_offline object ini section w descriptor recorded :
  section_exist ini section = true →
  offlineObjects w !! id object = Some descriptor →
  offlineActiveSection descriptor = Some recorded →
  getSectionToActivate object ini section w =
  if section_exist ini recorded
  then (Ok recorded, put_offline object (consumed descriptor) w)
  else (active_field_result (actor w) object ini section,
        log (active_field_calls (actor w) object ini section)
          (put_offline object (consumed descriptor) w)).
Proof.
  intros Hsection Hdescriptor Hrecorded.
  unfold getSectionToActivate. rewrite Hsection. cbn [negb].
  rewrite bind_run. unfold offline_descriptor at 1.
  rewrite Hdescriptor. cbn [mbind option_bind]. rewrite Hrecorded.
  rewrite bind_run. unfold clear_offline_section at 1. rewrite Hdescriptor.
  fold (consumed descriptor).
  destruct (section_exist ini recorded); [done|].
  by rewrite active_field_run.
Qed.

Lemma getSectionToActivate_online object ini section w :
  section_exist ini section = true →
  offlineObjects w !! id object ≫= offlineActiveSection = None →
  getSectionToActivate object ini section w =
  (active_field_result (actor w) object ini section,
   log (active_field_calls (actor w) object ini section) w).
Proof.
  intros Hsection Hnone.
  unfold getSectionToActivate. rewrite Hsection. cbn [negb].
  rewrite bind_run. unfold offline_descriptor at 1. rewrite Hnone.
  apply active_field_run.
Qed.

(** C3. With a recorded offline section [recorded] and a desired section that
    exists in the ini: if [recorded] exists in the ini it is the result,
    whatever the active field says; if it does not, the result is the one of
    the active field of the desired section, exactly as for an object without
    a recorded section, and the missing section raises nothing of its own
    (the result is a section as soon as the active field yields one or is
    absent). *)
Theorem getSectionToActivate_resumes_recorded object ini section w descriptor recorded :
  section_exist ini section = true →
  offlineObjects w !! id object = Some descriptor →
  offlineActiveSection descriptor = Some recorded →
  (section_exist ini recorded = true →
   (getSectionToActivate object ini section w).1 = Ok recorded) ∧
  (section_exist ini recorded = false →
   (getSectionToActivate object ini section w).1 =
   active_field_result (actor w) object ini section ∧
   (getSectionToActivate object ini section w).1 =
   (getSectionToActivate object ini section (put_offline object (consumed descriptor) w)).1 ∧
   (∀ e, (getSectionToActivate object ini section w).1 = Err e →
         e = NoElseClause ∧ ∃ condlist,
           readIniConditionList ini section "active" = Some condlist ∧
           pickSectionFromCondList (actor w) object condlist = None)).
Proof.
  intros Hsection Hdescriptor Hrecorded.
  rewrite (getSectionToActivate_offline _ _ _ _ _ _ Hsection Hdescriptor Hrecorded).
  split; intros Hexists; rewrite Hexists; cbn [fst]; [done|].
  split; [done|]. split.
  - rewrite getSectionToActivate_online; [done|done|].
    cbn. by rewrite lookup_insert_eq.
  - unfold active_field_result. intros e.
    destruct (readIniConditionList ini section "active") as [condlist|]; [|done].
    destruct (pickSectionFromCondList (actor w) object condlist) eqn:Hpick; [done|].
    intros [= <-]. eauto.
Qed.

(** C8, amended.  When the desired section exists in the ini and the object
    has an offline descriptor with a recorded section, the call leaves the
    descriptor with its section cleared, whether the recorded section exists
    in the ini or not and whether the active field then yields a section or
    fails. *)
Theorem getSectionToActivate_consumes_recorded object ini section w descriptor recorded :
  section_exist ini section = true →
  offlineObjects w !! id object = Some descriptor →
  offlineActiveSection descriptor = Some recorded →
  offlineObjects (getSectionToActivate object ini section w).2 !! id object =
  Some (consumed descriptor) ∧
  offlineActiveSection (consumed descriptor) = None.
Proof.
  intros Hsection Hdescriptor Hrecorded.
  rewrite (getSectionToActivate_offline _ _ _ _ _ _ Hsection Hdescriptor Hrecorded).
  destruct (section_exist ini recorded); cbn; by rewrite lookup_insert_eq.
Qed.

(** C10. When the ini has no section of the desired name the result is NIL
    and the store is the one before the call: the offline descriptor is not
    read, and a recorded section stays recorded. *)
Theorem getSectionToActivate_missing_section object ini section w :
  section_exist ini section = false →
  getSectionToActivate object ini section w = (Ok NIL, w) ∧
  offlineObjects (getSectionToActivate object ini section w).2 !! id object =
  offlineObjects w !! id object.
Proof.
  intros Hsection. unfold getSectionToActivate. by rewrite Hsection.
Qed.

(** ** Resolution and activation together *)

(** C4, amended.  A logic section without an active field resolves to NIL
    for an object of any type when nothing usable is recorded offline, and
    activation with NIL unbinds the object; no smart terrain is asked.  The
    job of the smart terrain supplies the section only when
    [activateSchemeBySection] is called with a null section: the call is then
    the one with the section of the job, and fails with the smart terrain
    assertion when the object is in no smart terrain. *)
Theorem terrain_job_only_for_null_section object ini section smartTerrainName
    isLoading state w :
  objects w !! id object = Some state →
  readIniConditionList ini section "active" = None →
  offlineObjects w !! id object ≫= offlineActiveSection = None →
  getSectionToActivate object ini section w = (Ok NIL, w) ∧
  (all_registered (reset_impls (schemeType state)) w →
   activateSchemeBySection object ini (Some NIL) smartTerrainName isLoading w =
   (Ok tt, unbound object state isLoading w)) ∧
  (getObjectTerrain object = None →
   (activateSchemeBySection object ini None smartTerrainName isLoading w).1 =
   Err NotInSmartTerrain) ∧
  (∀ terrain job,
     getObjectTerrain object = Some terrain →
     getTerrainJobByObjectId terrain (id object) = Some job →
     job_section job ≠ NIL →
     activateSchemeBySection object ini None smartTerrainName isLoading w =
     activateSchemeBySection object ini (Some (job_section job)) smartTerrainName
       isLoading w).
Proof.
  intros Hstate Hactive Hoffline. split_and!.
  - destruct (section_exist ini section) eqn:Hexist.
    + rewrite getSectionToActivate_online by done.
      unfold active_field_result, active_field_calls. by rewrite Hactive, log_nil_eq.
    + unfold getSectionToActivate. by rewrite Hexist.
  - intros Hregistered. by apply activateSchemeBySection_null_run.
  - intros Hterrain. unfold activateSchemeBySection.
    rewrite (stamping_run _ _ _ state) by done.
    rewrite bool_decide_eq_false_2 by done.
    rewrite !(resolution_run _ None), Hterrain. by destruct isLoading.
  - intros terrain job Hterrain Hjob Hnil. unfold activateSchemeBySection.
    rewrite !(stamping_run _ _ _ state) by done.
    rewrite !bool_decide_eq_false_2 by congruence.
    rewrite !(resolution_run object None). unfold resolve_section.
    rewrite Hterrain. simpl (Some terrain ≫= _). rewrite Hjob. reflexivity.
Qed.

End Properties.

(** ** The properties at work on the small engine *)

Lemma all_registered_check `{Engine} (impls : list EScheme.t) (w : World) :
  forallb (fun impl => bool_decide (impl ∈ schemes w)) impls = true →
  all_registered impls w.
Proof.
  intros Hcheck impl Himpl. apply list_elem_of_In in Himpl.
  rewrite forallb_forall in Hcheck. specialize (Hcheck impl Himpl).
  by apply bool_decide_eq_true_1 in Hcheck.
Qed.

(** A run is known from its result and the store it leaves. *)
Lemma returns_eq `{Engine} {A} (run : Res A * World) (a : A) :
  run.1 = Ok a → run = (Ok a, run.2).
Proof. destruct run as [result w]. cbn. by intros ->. Qed.

Lemma fails_eq `{Engine} {A} (run : Res A * World) (e : Error) :
  run.1 = Err e → run = (Err e, run.2).
Proof. destruct run as [result w]. cbn. by intros ->. Qed.

Lemma activateSchemeBySection_section_iff_scheme_witness :
  (∃ w' state',
     activateSchemeBySection Demo.stalker Demo.ltx (Some NIL) None false Demo.online
     = (Ok tt, w') ∧
     objects w' !! id Demo.stalker = Some state' ∧
     activeSection state' = None ∧ activeScheme state' = None) ∧
  (∃ w' state',
     activateSchemeBySection Demo.stalker Demo.ltx (Some "walker@guard"%string) None false
       Demo.online
     = (Ok tt, w') ∧
     objects w' !! id Demo.stalker = Some state' ∧
     activeSection state' = Some "walker@guard"%string ∧
     activeScheme state' = Some (EScheme.OTHER "walker")).
Proof.
  split.
  - apply (proj1 (activateSchemeBySection_section_iff_scheme Demo.stalker Demo.ltx
                    (Some NIL) None false Demo.online)
             (Demo.state (Some "walker@patrol"%string) (Some (EScheme.OTHER "walker")))).
    + reflexivity.
    + apply all_registered_check. reflexivity.
    + reflexivity.
  - apply (proj1 (proj2 (activateSchemeBySection_section_iff_scheme Demo.stalker Demo.ltx
                           (Some "walker@guard"%string) None false Demo.online))
             (Demo.state (Some "walker@patrol"%string) (Some (EScheme.OTHER "walker")))
             "walker@guard"%string (EScheme.OTHER "walker")).
    + reflexivity.
    + apply all_registered_check. reflexivity.
    + discriminate.
    + discriminate.
    + reflexivity.
    + reflexivity.
    + reflexivity.
    + apply (all_registered_check [EScheme.OTHER "walker"]); [reflexivity|left].
Defined.

Lemma activateSchemeBySection_null_section_witness :
  activateSchemeBySection Demo.stalker Demo.ltx (Some NIL) None true Demo.online =
  (Ok tt, unbound Demo.stalker
            (Demo.state (Some "walker@patrol"%string) (Some (EScheme.OTHER "walker")))
            true Demo.online).
Proof.
  refine (proj1 (proj2 (proj2 (proj2
            (activateSchemeBySection_null_section Demo.stalker Demo.ltx None true
               Demo.online)))
            (Demo.state (Some "walker@patrol"%string) (Some (EScheme.OTHER "walker")))
            _ _)).
  - reflexivity.
  - apply all_registered_check. reflexivity.
Defined.

Lemma activateSchemeBySection_order_witness :
  ∃ state name scheme between,
    trace (activateSchemeBySection Demo.stalker Demo.ltx (Some "walker@guard"%string)
             None false Demo.online).2 =
      trace Demo.online ++ reset_calls Demo.stalker state scheme name
      ++ [SchemeActivate scheme 1 Demo.ltx scheme (Some name) None]
      ++ between
      ++ [EmitSchemeEvent 1 scheme ACTIVATE false].
Proof.
  destruct (activateSchemeBySection_order Demo.stalker Demo.ltx
              (Some "walker@guard"%string) None false Demo.online
              (activateSchemeBySection Demo.stalker Demo.ltx (Some "walker@guard"%string)
                 None false Demo.online).2)
    as (state & name & scheme & between & _ & _ & _ & _ & Htrace & _).
  - discriminate.
  - apply returns_eq. vm_compute. reflexivity.
  - exists state, name, scheme, between. exact Htrace.
Defined.

Lemma activateSchemeBySection_timestamps_witness :
  stamps Demo.stalker
    (activateSchemeBySection Demo.stalker Demo.ltx (Some "walker@guard"%string)
       None true Demo.online).2 = Some (Some 10, Some 2) ∧
  stamps Demo.stalker
    (activateSchemeBySection Demo.stalker Demo.ltx (Some "walker@guard"%string)
       None false Demo.online).2 = Some (Some 1000, Some 50).
Proof.
  split.
  - apply (activateSchemeBySection_timestamps Demo.stalker Demo.ltx
             (Some "walker@guard"%string) None true
             (Demo.state (Some "walker@patrol"%string) (Some (EScheme.OTHER "walker")))).
    reflexivity.
  - apply (activateSchemeBySection_timestamps Demo.stalker Demo.ltx
             (Some "walker@guard"%string) None false
             (Demo.state (Some "walker@patrol"%string) (Some (EScheme.OTHER "walker")))).
    reflexivity.
Defined.

Lemma activateSchemeBySection_same_section_witness :
  activateSchemeBySection Demo.stalker Demo.ltx (Some "walker@patrol"%string) None false
    Demo.online =
  (Ok tt, bound Demo.stalker Demo.ltx
            (Demo.state (Some "walker@patrol"%string) (Some (EScheme.OTHER "walker")))
            "walker@patrol" (EScheme.OTHER "walker") None false Demo.online).
Proof.
  apply (activateSchemeBySection_same_section Demo.stalker Demo.ltx "walker@patrol"
           (EScheme.OTHER "walker") None false
           (Demo.state (Some "walker@patrol"%string) (Some (EScheme.OTHER "walker")))
           Demo.online).
  - reflexivity.
  - reflexivity.
  - discriminate.
  - reflexivity.
  - reflexivity.
  - apply all_registered_check. reflexivity.
  - apply (all_registered_check [EScheme.OTHER "walker"]); [reflexivity|left].
Defined.

(** C4 as stated fails: the stalker is in no smart terrain and [logic_plain]
    has no active field, yet resolution yields NIL without asking for a job
    and the activation of what it yields returns. *)
Lemma terrain_job_only_for_null_section_counterexample :
  schemeType <$> objects Demo.online !! 1 = Some STALKER ∧
  readIniConditionList Demo.ltx "logic_plain" "active" = None ∧
  getObjectTerrain Demo.stalker = None ∧
  (getSectionToActivate Demo.stalker Demo.ltx "logic_plain" Demo.online).1 = Ok NIL ∧
  ((section ← getSectionToActivate Demo.stalker Demo.ltx "logic_plain";
    activateSchemeBySection Demo.stalker Demo.ltx (Some section) None false)
     Demo.online).1 = Ok tt ∧
  ((section ← getSectionToActivate Demo.stalker Demo.ltx "logic_plain";
    activateSchemeBySection Demo.stalker Demo.ltx (Some section) None false)
     Demo.online).1 ≠ Err NotInSmartTerrain.
Proof. vm_compute. by split_and!. Qed.

Lemma terrain_job_only_for_null_section_witness :
  getSectionToActivate Demo.stalker Demo.ltx "logic_plain" Demo.online =
    (Ok NIL, Demo.online) ∧
  (activateSchemeBySection Demo.stalker Demo.ltx None None false Demo.online).1 =
    Err NotInSmartTerrain.
Proof.
  destruct (terrain_job_only_for_null_section Demo.stalker Demo.ltx "logic_plain" None false
              (Demo.state (Some "walker@patrol"%string) (Some (EScheme.OTHER "walker")))
              Demo.online)
    as (Hresolved & _ & Hterrain & _).
  - reflexivity.
  - reflexivity.
  - reflexivity.
  - split; [exact Hresolved|]. apply Hterrain. reflexivity.
Defined.

(** C9 as stated fails: [logic] has none of the on_combat, wounded, meet and
    on_death fields, and the base schemes of the stalker are enabled all the
    same, the combat scheme with a null section. *)
Lemma enableObjectBaseSchemes_stalker_absent_fields_counterexample :
  line_exist Demo.ltx "logic" "on_combat" = false ∧
  line_exist Demo.ltx "logic" "wounded" = false ∧
  line_exist Demo.ltx "logic" "meet" = false ∧
  line_exist Demo.ltx "logic" "on_death" = false ∧
  (enableObjectBaseSchemes Demo.stalker Demo.ltx STALKER "logic" Demo.online).1 = Ok tt ∧
  (enableObjectBaseSchemes Demo.stalker Demo.ltx STALKER "logic" Demo.online).1
    ≠ Err RequiredFieldMissing ∧
  trace (enableObjectBaseSchemes Demo.stalker Demo.ltx STALKER "logic" Demo.online).2 !! 2%nat
  = Some (SchemeActivate EScheme.COMBAT 1 Demo.ltx EScheme.COMBAT None None).
Proof. split_and!; try reflexivity. vm_compute. discriminate. Qed.

Lemma enableObjectBaseSchemes_stalker_absent_fields_witness :
  enableObjectBaseSchemes Demo.stalker Demo.ltx STALKER "logic" Demo.online =
  (Ok tt, log (stalker_base_calls Demo.stalker Demo.ltx "logic") Demo.online).
Proof.
  apply (enableObjectBaseSchemes_stalker_absent_fields Demo.stalker Demo.ltx "logic"
           Demo.online).
  apply all_registered_check. reflexivity.
Defined.

Lemma getSectionToActivate_resumes_recorded_witness :
  (getSectionToActivate Demo.stalker Demo.ltx "logic"
     (Demo.resumed (Some "walker@patrol"%string))).1 = Ok "walker@patrol"%string.
Proof.
  refine (proj1 (getSectionToActivate_resumes_recorded Demo.stalker Demo.ltx "logic"
    (Demo.resumed (Some "walker@patrol"%string))
    {| levelVertexId := Some 255; offlineActiveSection := Some "walker@patrol"%string |}
    "walker@patrol" _ _ _) _); reflexivity.
Defined.

(** C8 as stated fails: the ini has no section [logic_gone], the call returns
    at once and the recorded section is still there. *)
Lemma getSectionToActivate_consumes_recorded_counterexample :
  offlineActiveSection <$>
    offlineObjects (Demo.resumed (Some "walker@patrol"%string)) !! 1
  = Some (Some "walker@patrol"%string) ∧
  offlineActiveSection <$>
    offlineObjects (getSectionToActivate Demo.stalker Demo.ltx "logic_gone"
                      (Demo.resumed (Some "walker@patrol"%string))).2 !! 1
  = Some (Some "walker@patrol"%string) ∧
  offlineActiveSection <$>
    offlineObjects (getSectionToActivate Demo.stalker Demo.ltx "logic_gone"
                      (Demo.resumed (Some "walker@patrol"%string))).2 !! 1
  ≠ Some None.
Proof. vm_compute. by split_and!. Qed.

Lemma getSectionToActivate_consumes_recorded_witness :
  offlineObjects (getSectionToActivate Demo.stalker Demo.ltx "logic"
     (Demo.resumed (Some "walker@gone"%string))).2 !! 1 =
  Some {| levelVertexId := Some 255; offlineActiveSection := None |}.
Proof.
  refine (proj1 (getSectionToActivate_consumes_recorded Demo.stalker Demo.ltx "logic"
    (Demo.resumed (Some "walker@gone"%string))
    {| levelVertexId := Some 255; offlineActiveSection := Some "walker@gone"%string |}
    "walker@gone" _ _ _)); reflexivity.
Defined.

Lemma getSectionToActivate_missing_section_witness :
  getSectionToActivate Demo.stalker Demo.ltx "logic_gone"
    (Demo.resumed (Some "walker@patrol"%string)) =
  (Ok NIL, Demo.resumed (Some "walker@patrol"%string)).
Proof.
  refine (proj1 (getSectionToActivate_missing_section Demo.stalker Demo.ltx "logic_gone"
    (Demo.resumed (Some "walker@patrol"%string)) _)); reflexivity.
Defined.

(** * Further properties *)

Section FurtherProperties.
Context {engine : Engine}.
Implicit Types (w : World) (object : GameObject) (ini : IniFile).
Implicit Types (section : TSection) (state : IRegistryObjectState).

Lemma activateSchemeBySection_parts object ini (section : option TSection)
    smartTerrainName isLoading :
  activateSchemeBySection object ini section smartTerrainName isLoading =
  (stamp_activation object isLoading;;
   if bool_decide (section = Some NIL) then unbind object
   else
     resolved ← section_or_job object section;
     scheme ← assert_some (getSchemeFromSection resolved) UnresolvedScheme;
     name ← assert_section_exist ini resolved;
     switch_to object ini name scheme smartTerrainName isLoading).
Proof. reflexivity. Qed.

(** ** The errors a computation can end in *)

Section Fails.
Context (allowed : Error → bool).

Lemma fails_only_ret {A} (a : A) : fails_only allowed (mret a).
Proof. by intros w e. Qed.

Lemma fails_only_abort {A} e : allowed e = true → fails_only allowed (abort e : M A).
Proof. by intros He w e' [= <-]. Qed.

Lemma fails_only_assert condition e :
  allowed e = true → fails_only allowed (assert condition e).
Proof. intros He. destruct condition; [apply fails_only_ret|by apply fails_only_abort]. Qed.

Lemma fails_only_assert_some {A} (value : option A) e :
  allowed e = true → fails_only allowed (assert_some value e).
Proof. intros He. destruct value; [apply fails_only_ret|by apply fails_only_abort]. Qed.

Lemma fails_only_bind {A B} (m : M A) (k : A → M B) :
  fails_only allowed m → (∀ a, fails_only allowed (k a)) → fails_only allowed (m ≫= k).
Proof.
  intros Hm Hk w e. rewrite bind_run. specialize (Hm w).
  destruct (m w) as [[a|e'] w1]; cbn in *; [apply Hk|].
  intros [= <-]. by apply Hm.
Qed.

Lemma fails_only_read_state {A} object (field : IRegistryObjectState → A) :
  allowed NilIndex = true → fails_only allowed (read_state object field).
Proof.
  intros He w e. unfold read_state.
  destruct (objects w !! id object); [done|]. by intros [= <-].
Qed.

Lemma fails_only_write_state object update :
  allowed NilIndex = true → fails_only allowed (write_state object update).
Proof.
  intros He w e. unfold write_state.
  destruct (objects w !! id object); [done|]. by intros [= <-].
Qed.

Lemma fails_only_registered impl : fails_only allowed (registered impl).
Proof. by intros w e. Qed.

Lemma fails_only_call c : fails_only allowed (call c).
Proof. by intros w e. Qed.

Lemma fails_only_readIniString ini section field :
  fails_only allowed (readIniString ini section field false).
Proof.
  unfold readIniString.
  destruct (section_exist ini section && line_exist ini section field);
    apply fails_only_ret.
Qed.
End Fails.

Lemma fails_only_weaken {A} (allowed allowed' : Error → bool) (m : M A) :
  (∀ e, allowed e = true → allowed' e = true) →
  fails_only allowed m → fails_only allowed' m.
Proof. intros Hweaken Hm w e He. by eapply Hweaken, Hm. Qed.

(** Splits a computation along its binds and branches. *)
Ltac fails_step :=
  match goal with
  | |- fails_only _ (_ ≫= _) => apply fails_only_bind; [|intros ?]
  | |- fails_only _ (mret _) => apply fails_only_ret
  | |- fails_only _ (call _) => apply fails_only_call
  | |- fails_only _ (registered _) => apply fails_only_registered
  | |- fails_only _ (readIniString _ _ _ false) => apply fails_only_readIniString
  | |- fails_only _ (abort _) => apply fails_only_abort; reflexivity
  | |- fails_only _ (assert _ _) => apply fails_only_assert; reflexivity
  | |- fails_only _ (assert_some _ _) => apply fails_only_assert_some; reflexivity
  | |- fails_only _ (read_state _ _) => apply fails_only_read_state; reflexivity
  | |- fails_only _ (write_state _ _) => apply fails_only_write_state; reflexivity
  | |- fails_only _ (match ?x with _ => _ end) => destruct x
  end.

Lemma scheme_reset_fails allowed impl object scheme section :
  allowed NilIndex = true →
  fails_only allowed (scheme_reset impl object scheme section).
Proof. intros He. unfold scheme_reset. repeat fails_step. by apply fails_only_assert. Qed.


Lemma resetObjectGenericSchemesOnSectionSwitch_fails allowed object scheme section :
  allowed NilIndex = true →
  fails_only allowed (resetObjectGenericSchemesOnSectionSwitch object scheme section).
Proof.
  intros He. unfold resetObjectGenericSchemesOnSectionSwitch.
  repeat first
    [ by apply scheme_reset_fails
    | by apply fails_only_read_state
    | fails_step ].
Qed.

Lemma unbind_fails object : fails_only nil_index_error (unbind object).
Proof.
  unfold unbind.
  repeat first [by apply resetObjectGenericSchemesOnSectionSwitch_fails | fails_step].
Qed.

Lemma switch_to_fails object ini section scheme smartTerrainName isLoading :
  fails_only switch_error (switch_to object ini section scheme smartTerrainName isLoading).
Proof.
  unfold switch_to.
  repeat first [by apply resetObjectGenericSchemesOnSectionSwitch_fails | fails_step].
Qed.

Lemma stamp_activation_fails object isLoading :
  fails_only nil_index_error (stamp_activation object isLoading).
Proof. unfold stamp_activation. repeat fails_step. Qed.

(** X1. The errors of [activateSchemeBySection] by kind of section.  With the
    null section the only error is the indexing of a missing state or of a
    scheme that is not registered.  With a section name the smart terrain
    assertion cannot fail.  No call fails on a condition list or on a
    required ini field. *)
Theorem activateSchemeBySection_errors object ini smartTerrainName isLoading :
  fails_only nil_index_error
    (activateSchemeBySection object ini (Some NIL) smartTerrainName isLoading) ∧
  (∀ name, fails_only named_section_error
     (activateSchemeBySection object ini (Some name) smartTerrainName isLoading)) ∧
  fails_only activation_error
    (activateSchemeBySection object ini None smartTerrainName isLoading).
Proof.
  split_and!; [|intros name|]; rewrite activateSchemeBySection_parts.
  - rewrite bool_decide_eq_true_2 by done.
    apply fails_only_bind; [apply stamp_activation_fails|intros _; apply unbind_fails].
  - apply fails_only_bind.
    { eapply fails_only_weaken, stamp_activation_fails. by intros []. }
    intros _. case_bool_decide.
    { eapply fails_only_weaken, unbind_fails. by intros []. }
    unfold section_or_job, assert_section_exist.
    repeat first
      [ eapply fails_only_weaken, switch_to_fails; by intros []
      | fails_step ].
  - apply fails_only_bind.
    { eapply fails_only_weaken, stamp_activation_fails. by intros []. }
    intros _. rewrite bool_decide_eq_false_2 by done.
    unfold section_or_job, assert_section_exist.
    repeat first
      [ eapply fails_only_weaken, switch_to_fails; by intros []
      | fails_step ].
Qed.

(** X2. [activateSchemeBySection] returns exactly when the object has a state,
    the schemes of the generic reset for its type are registered, and either
    the section is the null one, or the section (the one of the smart terrain
    job when none is given) resolves to a registered scheme and exists in the
    ini. *)
Theorem activateSchemeBySection_returns_iff object ini (section : option TSection)
    smartTerrainName isLoading w :
  (∃ w', activateSchemeBySection object ini section smartTerrainName isLoading w =
         (Ok tt, w')) ↔
  ∃ state,
    objects w !! id object = Some state ∧
    all_registered (reset_impls (schemeType state)) w ∧
    (section = Some NIL ∨
     ∃ name scheme,
       (section = None → is_Some (getObjectTerrain object)) ∧
       resolve_section object section = Some name ∧
       getSchemeFromSection (Some name) = Some scheme ∧
       section_exist ini name = true ∧
       scheme ∈ schemes w).
Proof.
  split.
  - intros [w' (state & Hstate & Hregistered & Hcases)%activateSchemeBySection_ok].
    exists state. split_and!; [done..|].
    destruct Hcases as [[-> _]|(_ & name & scheme & ? & ? & ? & ? & ? & _)]; [by left|].
    right. by exists name, scheme.
  - intros (state & Hstate & Hregistered & [->|(name & scheme & ? & ? & ? & ? & ?)]).
    + eexists. by apply activateSchemeBySection_null_run.
    + destruct (decide (section = Some NIL)) as [->|Hnil].
      * eexists. by apply activateSchemeBySection_null_run.
      * eexists. by eapply activateSchemeBySection_bound_run.
Qed.

Lemma section_or_job_run object (section : option TSection) w :
  section_or_job object section w =
  match section, getObjectTerrain object with
  | None, None => (Err NotInSmartTerrain, w)
  | _, _ => (Ok (resolve_section object section), w)
  end.
Proof.
  unfold section_or_job, resolve_section. destruct section as [name|]; [done|].
  by destruct (getObjectTerrain object).
Qed.

Lemma stamp_activation_run object isLoading w :
  stamp_activation object isLoading w =
  if isLoading then (Ok tt, w)
  else match objects w !! id object with
       | Some state => (Ok tt, put_state object (stamp false state) w)
       | None => (Err NilIndex, w)
       end.
Proof.
  unfold stamp_activation. destruct isLoading; cbn [negb]; [done|].
  rewrite write_state_bind. destruct (objects w !! id object) as [state|]; [|done].
  rewrite (write_state_run _ _ (set_activationTime (Some time_global) state))
    by apply lookup_put_state.
  by rewrite put_put_state.
Qed.

(** X3. A call that fails on the smart terrain assertion, on the scheme of the
    section or on the existence of the section has called nothing: the trace
    is the one before the call.  When loading the whole store is the one
    before the call, and otherwise only the two timestamps of the object have
    been written. *)
Theorem activateSchemeBySection_resolution_failure object ini (section : option TSection)
    smartTerrainName isLoading w e w' :
  activateSchemeBySection object ini section smartTerrainName isLoading w = (Err e, w') →
  resolution_error e = true →
  trace w' = trace w ∧
  (isLoading = true → w' = w) ∧
  (isLoading = false →
   ∃ state, objects w !! id object = Some state ∧
            w' = put_state object (stamp false state) w).
Proof.
  intros Hrun He. rewrite activateSchemeBySection_parts in Hrun.
  assert (∀ w1,
    (if bool_decide (section = Some NIL) then unbind object
     else
       resolved ← section_or_job object section;
       scheme ← assert_some (getSchemeFromSection resolved) UnresolvedScheme;
       name ← assert_section_exist ini resolved;
       switch_to object ini name scheme smartTerrainName isLoading) w1 = (Err e, w') →
    w' = w1) as Hrest.
  { intros w1 Hrest. case_bool_decide.
    - pose proof (unbind_fails object w1 e) as Hunbind. rewrite Hrest in Hunbind.
      specialize (Hunbind eq_refl). by destruct e.
    - rewrite bind_run, section_or_job_run in Hrest.
      assert ((scheme ← assert_some (getSchemeFromSection (resolve_section object section))
                          UnresolvedScheme;
               name ← assert_section_exist ini (resolve_section object section);
               switch_to object ini name scheme smartTerrainName isLoading) w1
              = (Err e, w') → w' = w1) as Hresolved.
      { clear Hrest. intros Hrest. rewrite bind_run in Hrest.
        destruct (getSchemeFromSection (resolve_section object section)) as [scheme|];
          [|by injection Hrest].
        cbn in Hrest. rewrite bind_run in Hrest. unfold assert_section_exist in Hrest.
        destruct (resolve_section object section) as [name|]; [|by injection Hrest].
        destruct (section_exist ini name); [|by injection Hrest].
        change (switch_to object ini name scheme smartTerrainName isLoading w1
                = (Err e, w')) in Hrest.
        pose proof (switch_to_fails object ini name scheme smartTerrainName isLoading w1 e)
          as Hswitch.
        rewrite Hrest in Hswitch. specialize (Hswitch eq_refl). by destruct e. }
      destruct section as [given|]; [by apply Hresolved|].
      destruct (getObjectTerrain object); [by apply Hresolved|by injection Hrest]. }
  rewrite bind_run, stamp_activation_run in Hrun.
  destruct isLoading.
  - apply Hrest in Hrun as ->. by split_and!.
  - destruct (objects w !! id object) as [state|] eqn:Hstate.
    + apply Hrest in Hrun as ->. split_and!; [done..|]. eauto.
    + injection Hrun as <- <-. discriminate He.
Qed.

Lemma switch_to_unregistered object ini section scheme smartTerrainName isLoading state w :
  objects w !! id object = Some state →
  all_registered (reset_impls (schemeType state)) w →
  scheme ∉ schemes w →
  switch_to object ini section scheme smartTerrainName isLoading w =
  (Err SchemeNotRegistered,
   log (reset_calls object state scheme section)
     (put_state object
        (set_overrides (Some (getObjectConfigOverrides ini section object)) state) w)).
Proof.
  intros Hstate Hregistered Hscheme. unfold switch_to.
  rewrite write_state_bind, Hstate, bind_run.
  rewrite (resetObjectGenericSchemesOnSectionSwitch_run _ _ _
             (set_overrides (Some (getObjectConfigOverrides ini section object)) state));
    [|apply lookup_put_state|done].
  rewrite bind_run. unfold registered at 1. cbn [schemes log put_state].
  by rewrite bool_decide_eq_false_2.
Qed.

Lemma resolved_run object ini (section : option TSection) smartTerrainName isLoading
    name scheme w :
  section ≠ Some NIL →
  (section = None → is_Some (getObjectTerrain object)) →
  resolve_section object section = Some name →
  getSchemeFromSection (Some name) = Some scheme →
  section_exist ini name = true →
  (if bool_decide (section = Some NIL) then unbind object
   else
     resolved ← section_or_job object section;
     scheme ← assert_some (getSchemeFromSection resolved) UnresolvedScheme;
     name ← assert_section_exist ini resolved;
     switch_to object ini name scheme smartTerrainName isLoading) w =
  switch_to object ini name scheme smartTerrainName isLoading w.
Proof.
  intros Hnil Hterrain Hname Hscheme Hexist.
  rewrite bool_decide_eq_false_2 by done.
  rewrite bind_run, section_or_job_run, Hname.
  destruct section as [given|]; [|destruct (Hterrain eq_refl) as [terrain ->]];
    rewrite bind_run, Hscheme; cbn;
    rewrite bind_run; unfold assert_section_exist; by rewrite Hexist.
Qed.

(** X4. When everything but the registration of the scheme of the section is
    in place, the call fails on line 156 after the overrides of the section
    were written and the generic reset ran: the state keeps its old active
    section and scheme beside the overrides of the new section, and neither
    the activate nor the activation event was reached. *)
Theorem activateSchemeBySection_scheme_not_registered object ini
    (section : option TSection) smartTerrainName isLoading state name scheme w :
  objects w !! id object = Some state →
  section ≠ Some NIL →
  (section = None → is_Some (getObjectTerrain object)) →
  resolve_section object section = Some name →
  getSchemeFromSection (Some name) = Some scheme →
  section_exist ini name = true →
  all_registered (reset_impls (schemeType state)) w →
  scheme ∉ schemes w →
  activateSchemeBySection object ini section smartTerrainName isLoading w =
    (Err SchemeNotRegistered, half_switched object ini state name scheme isLoading w) ∧
  (∃ state',
     objects (half_switched object ini state name scheme isLoading w) !! id object
       = Some state' ∧
     activeSection state' = activeSection state ∧
     activeScheme state' = activeScheme state ∧
     overrides state' = Some (getObjectConfigOverrides ini name object)) ∧
  trace (half_switched object ini state name scheme isLoading w) =
    trace w ++ reset_calls object state scheme name.
Proof.
  intros Hstate Hnil Hterrain Hname Hscheme Hexist Hregistered Himpl. split_and!.
  - rewrite activateSchemeBySection_parts, bind_run, stamp_activation_run.
    unfold half_switched. destruct isLoading.
    + rewrite (resolved_run _ _ _ _ _ name scheme) by done.
      by rewrite (switch_to_unregistered _ _ _ _ _ _ state).
    + rewrite Hstate. rewrite (resolved_run _ _ _ _ _ name scheme) by done.
      rewrite (switch_to_unregistered _ _ _ _ _ _ (stamp false state));
        [|apply lookup_put_state|done..].
      by rewrite put_put_state.
  - eexists. split; [apply lookup_put_state|]. by destruct isLoading.
  - done.
Qed.

(** ** What activateSchemeBySection never touches *)

Lemma appends_keeps {A} (m : M A) : keeps trace m → appends m.
Proof. intros Hm w. exists []. by rewrite Hm, app_nil_r. Qed.

Lemma appends_quiet {A} (m : M A) : quiet m → appends m.
Proof. intros Hm w. destruct (Hm w) as (calls & Htrace & _). eauto. Qed.

Lemma appends_call c : appends (call c).
Proof. intros w. by exists [c]. Qed.

Lemma appends_bind {A B} (m : M A) (k : A → M B) :
  appends m → (∀ a, appends (k a)) → appends (m ≫= k).
Proof.
  intros Hm Hk w. rewrite bind_run. destruct (Hm w) as (calls1 & Htrace1).
  destruct (m w) as [[a|e] w1]; cbn in *; [|by exists calls1].
  destruct (Hk a w1) as (calls2 & Htrace2).
  exists (calls1 ++ calls2). by rewrite Htrace2, Htrace1, app_assoc.
Qed.

(** Splits a computation along its binds and branches; [Hlog] and [Hput] say
    that the observation ignores the trace and the writes of the source. *)
Ltac frame_step Hlog Hput :=
  match goal with
  | |- keeps _ (_ ≫= _) => apply keeps_bind; [|intros ?]
  | |- keeps _ (mret _) => apply keeps_ret
  | |- keeps _ (abort _) => apply keeps_abort
  | |- keeps _ (assert _ _) => apply keeps_assert
  | |- keeps _ (assert_some _ _) => apply keeps_assert_some
  | |- keeps _ (read_state _ _) => apply keeps_read_state
  | |- keeps _ (registered _) => apply keeps_registered
  | |- keeps _ (call _) => apply keeps_call; intros ?; apply Hlog
  | |- keeps _ (resetObjectGenericSchemesOnSectionSwitch _ _ _) =>
      apply resetObjectGenericSchemesOnSectionSwitch_keeps; apply Hlog
  | |- keeps _ (write_state _ _) =>
      apply keeps_write_state; intros ? ? ?; apply Hput; [assumption|reflexivity..]
  | |- keeps _ (match ?x with _ => _ end) => destruct x
  end.

Lemma activateSchemeBySection_keeps {X} (obs : World → X) object ini
    (section : option TSection) smartTerrainName isLoading :
  (∀ c w, obs (log [c] w) = obs w) →
  (∀ update state w,
     objects w !! id object = Some state →
     schemeType (update state) = schemeType state →
     state_ini (update state) = state_ini state →
     obs (put_state object (update state) w) = obs w) →
  keeps obs (activateSchemeBySection object ini section smartTerrainName isLoading).
Proof.
  intros Hlog Hput. unfold activateSchemeBySection, assert_section_exist.
  repeat frame_step Hlog Hput.
Qed.

(** X5. Whatever its outcome, [activateSchemeBySection] leaves the offline
    descriptors, the registered schemes and the states of all other objects
    as they were, keeps the scheme type and the ini of the state of its
    object, and only adds calls at the end of the trace. *)
Theorem activateSchemeBySection_frame object ini (section : option TSection)
    smartTerrainName isLoading w :
  offlineObjects (activateSchemeBySection object ini section smartTerrainName isLoading w).2
    = offlineObjects w ∧
  schemes (activateSchemeBySection object ini section smartTerrainName isLoading w).2
    = schemes w ∧
  (∀ other, other ≠ id object →
     objects (activateSchemeBySection object ini section smartTerrainName isLoading w).2
       !! other = objects w !! other) ∧
  (fun state => (schemeType state, state_ini state)) <$>
    objects (activateSchemeBySection object ini section smartTerrainName isLoading w).2
      !! id object
    = (fun state => (schemeType state, state_ini state)) <$> objects w !! id object ∧
  ∃ calls,
    trace (activateSchemeBySection object ini section smartTerrainName isLoading w).2
    = trace w ++ calls.
Proof.
  split_and!.
  - by apply (activateSchemeBySection_keeps offlineObjects).
  - by apply (activateSchemeBySection_keeps schemes).
  - intros other Hother.
    apply (activateSchemeBySection_keeps (fun w => objects w !! other)); [done|].
    intros update state w1 _ _ _. cbn. by apply lookup_insert_ne.
  - apply (activateSchemeBySection_keeps
             (fun w => (fun state => (schemeType state, state_ini state)) <$>
                         objects w !! id object)); [done|].
    intros update state w1 Hstate Htype Hini.
    by rewrite lookup_put_state, Hstate; cbn; rewrite Htype, Hini.
  - revert w. change (appends (activateSchemeBySection object ini section
                                 smartTerrainName isLoading)).
    unfold activateSchemeBySection, assert_section_exist.
    repeat first
      [ apply appends_bind; [|intros ?]
      | apply appends_call
      | apply appends_quiet, resetObjectGenericSchemesOnSectionSwitch_quiet
      | apply appends_keeps, keeps_write_state; reflexivity
      | apply appends_keeps; first
          [ apply keeps_ret | apply keeps_abort | apply keeps_assert
          | apply keeps_assert_some | apply keeps_read_state | apply keeps_registered ]
      | match goal with |- appends (match ?x with _ => _ end) => destruct x end ].
Qed.

(** X6. After every call that returns, the overrides of the state belong to
    its active section: both are empty, or the overrides are the ones read
    from the ini for the active section, whose scheme is the active scheme. *)
Theorem activateSchemeBySection_overrides_of_section object ini
    (section : option TSection) smartTerrainName isLoading w w' :
  activateSchemeBySection object ini section smartTerrainName isLoading w = (Ok tt, w') →
  ∃ state',
    objects w' !! id object = Some state' ∧
    ((activeSection state' = None ∧ overrides state' = None) ∨
     (∃ name scheme,
        activeSection state' = Some name ∧
        activeScheme state' = Some scheme ∧
        getSchemeFromSection (Some name) = Some scheme ∧
        section_exist ini name = true ∧
        overrides state' = Some (getObjectConfigOverrides ini name object))).
Proof.
  intros (state & Hstate & _ & [[Hnil ->]|(Hnil & name & scheme & _ & _ & ? & ? & _ & ->)])
    %activateSchemeBySection_ok.
  - eexists. split; [apply lookup_put_state|]. by left.
  - eexists. split; [apply lookup_put_state|]. right. by exists name, scheme.
Qed.

(** X7. [isActiveSection] after a call that returns: after a switch to the
    null section it holds for null and not for the NIL string; after any
    other switch it holds for the section that was activated and for no other
    argument.  It leaves the store alone. *)
Theorem isActiveSection_after_activation object ini (section : option TSection)
    smartTerrainName isLoading w w' :
  activateSchemeBySection object ini section smartTerrainName isLoading w = (Ok tt, w') →
  (section = Some NIL →
   isActiveSection object None w' = (Ok true, w') ∧
   isActiveSection object (Some NIL) w' = (Ok false, w')) ∧
  (section ≠ Some NIL →
   ∃ name, resolve_section object section = Some name ∧
     ∀ candidate : option TSection,
       isActiveSection object candidate w' =
       (Ok (bool_decide (candidate = Some name)), w')).
Proof.
  intros (state & Hstate & _ & [[Hnil ->]|(Hnil & name & scheme & _ & ? & _ & _ & _ & ->)])
    %activateSchemeBySection_ok.
  - split; [intros _|done].
    split; (erewrite isActiveSection_pure; [|apply lookup_put_state]); done.
  - split; [done|intros _]. exists name. split; [done|]. intros candidate.
    erewrite isActiveSection_pure; [|apply lookup_put_state]. done.
Qed.

(** ** The generic reset, further *)

(** X8. The generic reset returns exactly when the object has a state and the
    schemes it resets for the type of the object are registered; for physic
    objects and helicopters that is whenever the object has a state, and for
    a helicopter the store is then the one before the call. *)
Theorem resetObjectGenericSchemesOnSectionSwitch_returns_iff object scheme section w :
  ((∃ w', resetObjectGenericSchemesOnSectionSwitch object scheme section w = (Ok tt, w')) ↔
   ∃ state, objects w !! id object = Some state ∧
            all_registered (reset_impls (schemeType state)) w) ∧
  (∀ state, objects w !! id object = Some state →
     schemeType state = OBJECT ∨ schemeType state = HELICOPTER →
     (resetObjectGenericSchemesOnSectionSwitch object scheme section w).1 = Ok tt) ∧
  (∀ state, objects w !! id object = Some state →
     schemeType state = HELICOPTER →
     resetObjectGenericSchemesOnSectionSwitch object scheme section w = (Ok tt, w)).
Proof.
  split_and!.
  - split.
    + by intros [w' Hrun%resetObjectGenericSchemesOnSectionSwitch_ok].
    + intros (state & Hstate & Hregistered). eexists.
      by apply resetObjectGenericSchemesOnSectionSwitch_run.
  - intros state Hstate Htype.
    rewrite (resetObjectGenericSchemesOnSectionSwitch_run _ _ _ state); [done..|].
    intros impl Himpl. by destruct Htype as [Htype|Htype]; rewrite Htype in Himpl;
      apply elem_of_nil in Himpl.
  - intros state Hstate Htype.
    rewrite (resetObjectGenericSchemesOnSectionSwitch_run _ _ _ state); [|done|].
    + unfold reset_calls. by rewrite Htype, log_nil_eq.
    + rewrite Htype. intros impl Himpl. by apply elem_of_nil in Himpl.
Qed.

(** Closes a goal on the store of a reset that stopped early. *)
Ltac stopped_early Htype :=
  rewrite ?log_log;
  first [ eexists; split; [reflexivity|] | exists []; split; [by rewrite log_nil_eq|] ];
  unfold reset_calls; rewrite Htype; cbn; eexists; reflexivity.

(** X9. A generic reset that fails fails on the indexing of a missing state
    or scheme, never in between two of its own writes: without a state the
    store is the one before the call; with a state, some scheme of the reset
    is not registered and the calls made are an initial part of the calls of
    the full reset. *)
Theorem resetObjectGenericSchemesOnSectionSwitch_failure object scheme section w e w' :
  resetObjectGenericSchemesOnSectionSwitch object scheme section w = (Err e, w') →
  e = NilIndex ∧
  match objects w !! id object with
  | None => w' = w
  | Some state =>
      ¬ all_registered (reset_impls (schemeType state)) w ∧
      ∃ calls, w' = log calls w ∧
               calls `prefix_of` reset_calls object state scheme section
  end.
Proof.
  intros Hrun. split.
  - pose proof (resetObjectGenericSchemesOnSectionSwitch_fails nil_index_error
                  object scheme section eq_refl w e) as Hfails.
    rewrite Hrun in Hfails. specialize (Hfails eq_refl). by destruct e.
  - destruct (objects w !! id object) as [state|] eqn:Hstate.
    + split.
      { intros Hregistered.
        by rewrite (resetObjectGenericSchemesOnSectionSwitch_run _ _ _ state) in Hrun. }
      unfold resetObjectGenericSchemesOnSectionSwitch in Hrun.
      rewrite read_state_bind, Hstate in Hrun.
      destruct (schemeType state) eqn:Htype.
      * repeat (rewrite ?call_bind, scheme_reset_bind in Hrun; cbn [schemes log] in Hrun;
                case_bool_decide;
                [|injection Hrun as <- <-; stopped_early Htype]).
        rewrite !call_bind, read_state_bind in Hrun. cbn [objects log] in Hrun.
        by rewrite Hstate in Hrun.
      * rewrite call_bind in Hrun.
        destruct (bool_decide (clsid object = clsid_bloodsucker_s)) eqn:Hclsid;
          rewrite ?call_bind, ?ret_bind in Hrun;
          repeat (rewrite scheme_reset_bind in Hrun; cbn [schemes log] in Hrun;
                  case_bool_decide;
                  [|injection Hrun as <- <-; rewrite ?log_log; eexists;
                    split; [reflexivity|]; unfold reset_calls;
                    rewrite Htype, Hclsid; cbn; eexists; reflexivity]);
          done.
      * done.
      * done.
    + unfold resetObjectGenericSchemesOnSectionSwitch in Hrun.
      rewrite read_state_bind, Hstate in Hrun. by injection Hrun.
Qed.

(** X10. On a monster whose state exists and whose reset schemes are
    registered, the reset calls [set_manual_invisibility] exactly when the
    object is a bloodsucker, once, with false for the scheme NIL and true for
    every other scheme. *)
Theorem resetObjectGenericSchemesOnSectionSwitch_bloodsucker object scheme section
    state w :
  objects w !! id object = Some state →
  schemeType state = MONSTER →
  all_registered (reset_impls MONSTER) w →
  ∃ calls,
    resetObjectGenericSchemesOnSectionSwitch object scheme section w = (Ok tt, log calls w) ∧
    filter (fun c => sets_invisibility c = true) calls =
    (if bool_decide (clsid object = clsid_bloodsucker_s)
     then [SetManualInvisibility (id object) (bool_decide (scheme ≠ EScheme.NIL))]
     else []).
Proof.
  intros Hstate Htype Hregistered. eexists. split.
  - apply resetObjectGenericSchemesOnSectionSwitch_run; [done|by rewrite Htype].
  - unfold reset_calls. rewrite Htype. by case_bool_decide.
Qed.

(** ** enableObjectBaseSchemes, for every type *)








Lemma scheme_activate_last impl object ini scheme (section : option TSection)
    smartTerrainName w :
  scheme_activate impl object ini scheme section smartTerrainName w =
  if bool_decide (impl ∈ schemes w)
  then (Ok tt, log [SchemeActivate impl (id object) ini scheme section smartTerrainName] w)
  else (Err NilIndex, w).
Proof.
  unfold scheme_activate, registered, assert, mbind, M_bind, mret, M_ret, abort, call.
  by destruct (bool_decide (impl ∈ schemes w)).
Qed.

(** Membership in a literal list. *)
Ltac solve_member_of :=
  solve [repeat first [apply list_elem_of_here | apply list_elem_of_further]].

(** Runs [enableObjectBaseSchemes] in the goal when the schemes of
    [Hregistered] are registered and the fields read are known. *)
Ltac enable_run Hregistered :=
  repeat first
    [ rewrite scheme_activate_bind, bool_decide_eq_true_2
        by (cbn [schemes log]; apply Hregistered; solve_member_of)
    | rewrite scheme_activate_last, bool_decide_eq_true_2
        by (cbn [schemes log]; apply Hregistered; solve_member_of)
    | rewrite call_bind
    | rewrite ret_bind
    | rewrite readIniString_bind
    | match goal with H : read_field _ _ _ = _ |- _ => rewrite H end ];
  rewrite ?log_log, ?log_nil_eq.

(** Runs [enableObjectBaseSchemes] in [Hrun], which says that it returns, and
    collects the schemes that were found registered. *)
Ltac enable_ok Hrun :=
  repeat first
    [ rewrite scheme_activate_bind in Hrun; cbn [schemes log] in Hrun;
      case_bool_decide; [|discriminate Hrun]
    | rewrite scheme_activate_last in Hrun; cbn [schemes log] in Hrun;
      case_bool_decide; [|discriminate Hrun]
    | rewrite call_bind in Hrun
    | rewrite ret_bind in Hrun
    | rewrite readIniString_bind in Hrun
    | match goal with H : read_field _ _ _ = _ |- _ => rewrite H in Hrun end ].

(** Membership in a literal list of schemes, from facts about each member. *)
Ltac solve_fetched :=
  let impl := fresh "impl" in
  let Himpl := fresh "Himpl" in
  cbn; intros impl Himpl;
  repeat (apply elem_of_cons in Himpl as [->|Himpl]; [assumption|]);
  by apply elem_of_nil in Himpl.

Lemma enableObjectBaseSchemes_run object ini type logicsSection w :
  all_registered (base_fetched type ini logicsSection) w →
  enableObjectBaseSchemes object ini type logicsSection w =
  (Ok tt, log (base_calls type object ini logicsSection) w).
Proof.
  intros Hregistered.
  unfold enableObjectBaseSchemes, base_calls, stalker_base_calls, monster_base_calls.
  unfold base_fetched in Hregistered.
  destruct type.
  - destruct (read_field ini logicsSection "info") as [infoSection|] eqn:Hinfo;
      destruct (read_field ini logicsSection "on_hit") as [hitSection|] eqn:Hhit;
      cbn [app] in Hregistered; by enable_run Hregistered.
  - destruct (read_field ini logicsSection "on_combat") as [combatSection|] eqn:Hcombat;
      destruct (read_field ini logicsSection "on_death") as [deathSection|] eqn:Hdeath;
      destruct (read_field ini logicsSection "on_hit") as [hitSection|] eqn:Hhit;
      cbn [app] in Hregistered; by enable_run Hregistered.
  - destruct (read_field ini logicsSection "on_hit") as [hitSection|] eqn:Hhit;
      by enable_run Hregistered.
  - destruct (read_field ini logicsSection "on_hit") as [hitSection|] eqn:Hhit;
      by enable_run Hregistered.
Qed.

Lemma enableObjectBaseSchemes_ok object ini type logicsSection w w' :
  enableObjectBaseSchemes object ini type logicsSection w = (Ok tt, w') →
  all_registered (base_fetched type ini logicsSection) w.
Proof.
  intros Hrun. unfold enableObjectBaseSchemes in Hrun. unfold base_fetched.
  destruct type.
  - destruct (read_field ini logicsSection "info") as [infoSection|] eqn:Hinfo;
      destruct (read_field ini logicsSection "on_hit") as [hitSection|] eqn:Hhit;
      enable_ok Hrun; solve_fetched.
  - destruct (read_field ini logicsSection "on_combat") as [combatSection|] eqn:Hcombat;
      destruct (read_field ini logicsSection "on_death") as [deathSection|] eqn:Hdeath;
      destruct (read_field ini logicsSection "on_hit") as [hitSection|] eqn:Hhit;
      enable_ok Hrun; solve_fetched.
  - destruct (read_field ini logicsSection "on_hit") as [hitSection|] eqn:Hhit;
      enable_ok Hrun; solve_fetched.
  - destruct (read_field ini logicsSection "on_hit") as [hitSection|] eqn:Hhit;
      enable_ok Hrun; solve_fetched.
Qed.

(** X12. For every type of object, [enableObjectBaseSchemes] returns exactly
    when each scheme it fetches for the fields the logic section has is
    registered, and the calls it has then made are the activations of these
    schemes and the initializations, in the order of the source.  A physic
    object or a helicopter whose on_hit field reads as null has the store left
    as it was, for any registry. *)
Theorem enableObjectBaseSchemes_returns_iff object ini type logicsSection w :
  ((∃ w', enableObjectBaseSchemes object ini type logicsSection w = (Ok tt, w')) ↔
   all_registered (base_fetched type ini logicsSection) w) ∧
  (∀ w', enableObjectBaseSchemes object ini type logicsSection w = (Ok tt, w') →
         w' = log (base_calls type object ini logicsSection) w) ∧
  (type = OBJECT ∨ type = HELICOPTER →
   read_field ini logicsSection "on_hit" = None →
   enableObjectBaseSchemes object ini type logicsSection w = (Ok tt, w)).
Proof.
  split_and!.
  - split.
    + intros [w' Hrun]. by eapply enableObjectBaseSchemes_ok.
    + intros Hregistered. eexists. by apply enableObjectBaseSchemes_run.
  - intros w' Hrun. pose proof (enableObjectBaseSchemes_ok _ _ _ _ _ _ Hrun) as Hregistered.
    rewrite (enableObjectBaseSchemes_run _ _ _ _ _ Hregistered) in Hrun.
    by injection Hrun.
  - intros Htype Hhit. rewrite enableObjectBaseSchemes_run.
    + unfold base_calls. destruct Htype as [-> | ->]; by rewrite Hhit, log_nil_eq.
    + unfold base_fetched. destruct Htype as [-> | ->]; rewrite Hhit;
        intros impl Himpl; by apply elem_of_nil in Himpl.
Qed.

(** ** getSectionToActivate, further *)

Lemma getSectionToActivate_cases object ini section w :
  getSectionToActivate object ini section w =
  if section_exist ini section
  then match offlineObjects w !! id object with
       | Some descriptor =>
           match offlineActiveSection descriptor with
           | Some recorded =>
               if section_exist ini recorded
               then (Ok recorded, put_offline object (consumed descriptor) w)
               else (active_field_result (actor w) object ini section,
                     log (active_field_calls (actor w) object ini section)
                       (put_offline object (consumed descriptor) w))
           | None => (active_field_result (actor w) object ini section,
                      log (active_field_calls (actor w) object ini section) w)
           end
       | None => (active_field_result (actor w) object ini section,
                  log (active_field_calls (actor w) object ini section) w)
       end
  else (Ok NIL, w).
Proof.
  destruct (section_exist ini section) eqn:Hexist.
  - destruct (offlineObjects w !! id object) as [descriptor|] eqn:Hdescriptor.
    + destruct (offlineActiveSection descriptor) as [recorded|] eqn:Hrecorded.
      * by apply getSectionToActivate_offline.
      * apply getSectionToActivate_online; [done|]. by rewrite Hdescriptor.
    + apply getSectionToActivate_online; [done|]. by rewrite Hdescriptor.
  - unfold getSectionToActivate. by rewrite Hexist.
Qed.


(** X14. Whatever its outcome, [getSectionToActivate] writes no state of an
    object and registers no scheme, and the actor of the registry is the same.
    The only call it makes is the evaluation of the condition list of the
    active field of the desired section, once, and only when the desired
    section exists in the ini and no recorded section that exists in the ini
    is returned instead.  It touches the offline descriptor of its object
    only: the descriptors of the other objects are the same, no descriptor is
    added or removed, and the level vertex of the descriptor is kept. *)
Theorem getSectionToActivate_frame object ini section w :
  actor (getSectionToActivate object ini section w).2 = actor w ∧
  objects (getSectionToActivate object ini section w).2 = objects w ∧
  schemes (getSectionToActivate object ini section w).2 = schemes w ∧
  trace (getSectionToActivate object ini section w).2 =
    trace w ++
    (if section_exist ini section
     then match offlineObjects w !! id object ≫= offlineActiveSection with
          | Some recorded =>
              if section_exist ini recorded then []
              else active_field_calls (actor w) object ini section
          | None => active_field_calls (actor w) object ini section
          end
     else []) ∧
  (∀ other, other ≠ id object →
     offlineObjects (getSectionToActivate object ini section w).2 !! other =
     offlineObjects w !! other) ∧
  levelVertexId <$> offlineObjects (getSectionToActivate object ini section w).2 !! id object
    = levelVertexId <$> offlineObjects w !! id object.
Proof.
  rewrite getSectionToActivate_cases.
  destruct (section_exist ini section); [|by rewrite app_nil_r; split_and!].
  destruct (offlineObjects w !! id object) as [descriptor|] eqn:Hdescriptor;
    [|by cbn [snd mbind option_bind]; cbn; rewrite ?Hdescriptor; split_and!].
  cbn [mbind option_bind].
  destruct (offlineActiveSection descriptor) as [recorded|];
    [|by cbn; rewrite ?Hdescriptor; split_and!].
  destruct (section_exist ini recorded); cbn.
  - rewrite app_nil_r. split_and!; [done..| |].
    + intros other Hother. by apply lookup_insert_ne.
    + by rewrite lookup_insert_eq.
  - split_and!; [done..| |].
    + intros other Hother. by apply lookup_insert_ne.
    + by rewrite lookup_insert_eq.
Qed.

(** X15. [getSectionToActivate] fails in one situation only: the desired
    section exists in the ini, no recorded section that exists in the ini is
    there to be resumed, and the active field of the desired section has a
    condition list none of whose branches applies.  The error is the missing
    else clause. *)
Theorem getSectionToActivate_fails_iff object ini section w e :
  (getSectionToActivate object ini section w).1 = Err e ↔
  e = NoElseClause ∧
  section_exist ini section = true ∧
  (∀ recorded,
     offlineObjects w !! id object ≫= offlineActiveSection = Some recorded →
     section_exist ini recorded = false) ∧
  ∃ condlist, readIniConditionList ini section "active" = Some condlist ∧
              pickSectionFromCondList (actor w) object condlist = None.
Proof.
  assert (active_field_result (actor w) object ini section = Err e ↔
          e = NoElseClause ∧
          ∃ condlist, readIniConditionList ini section "active" = Some condlist ∧
                      pickSectionFromCondList (actor w) object condlist = None) as Hactive.
  { unfold active_field_result.
    destruct (readIniConditionList ini section "active") as [condlist|].
    - destruct (pickSectionFromCondList (actor w) object condlist) eqn:Hpick.
      + split; [done|]. by intros (_ & condlist' & [= <-] & Hnone); rewrite Hpick in Hnone.
      + split; [intros [= <-]; eauto|]. by intros (-> & _).
    - split; [done|]. by intros (_ & condlist & ? & _). }
  rewrite getSectionToActivate_cases.
  destruct (section_exist ini section) eqn:Hexist; [|split; [done|by intros (_ & ? & _)]].
  destruct (offlineObjects w !! id object) as [descriptor|] eqn:Hdescriptor;
    cbn [mbind option_bind].
  - destruct (offlineActiveSection descriptor) as [recorded|] eqn:Hrecorded.
    + destruct (section_exist ini recorded) eqn:Hresumed; cbn [fst].
      * split; [done|]. intros (_ & _ & Hnone & _).
        specialize (Hnone recorded eq_refl). congruence.
      * rewrite Hactive. split.
        -- intros (-> & Hcondlist). split_and!; [done..| |done].
           by intros recorded' [= <-].
        -- by intros (-> & _ & _ & Hcondlist).
    + cbn [fst]. rewrite Hactive. split.
      * intros (-> & Hcondlist). by split_and!.
      * by intros (-> & _ & _ & Hcondlist).
  - cbn [fst]. rewrite Hactive. split.
    + intros (-> & Hcondlist). by split_and!.
    + by intros (-> & _ & _ & Hcondlist).
Qed.

(** ** Resuming *)

(** X16. Resolution followed by activation of what it yields, for an object
    that comes back online with a recorded section that exists in the ini, is
    not the null one and resolves to a registered scheme.  When the section
    asked for exists in the ini, the object ends up bound to the recorded
    section, whatever the active field of the section asked for says, and
    nothing is recorded for it any more; the calls are those of a direct
    switch to the recorded section.  When the section asked for does not
    exist in the ini, resolution yields NIL: the object ends up unbound and
    the recorded section stays recorded. *)
Theorem resume_binds_recorded object ini section smartTerrainName isLoading
    state descriptor recorded scheme w :
  objects w !! id object = Some state →
  offlineObjects w !! id object = Some descriptor →
  offlineActiveSection descriptor = Some recorded →
  recorded ≠ NIL →
  section_exist ini recorded = true →
  getSchemeFromSection (Some recorded) = Some scheme →
  all_registered (reset_impls (schemeType state)) w →
  scheme ∈ schemes w →
  (section_exist ini section = true →
   (resolved ← getSectionToActivate object ini section;
    activateSchemeBySection object ini (Some resolved) smartTerrainName isLoading) w =
   (Ok tt,
    bound object ini state recorded scheme smartTerrainName isLoading
      (put_offline object (consumed descriptor) w)) ∧
   activeSection <$>
     objects (bound object ini state recorded scheme smartTerrainName isLoading
                (put_offline object (consumed descriptor) w)) !! id object
     = Some (Some recorded) ∧
   offlineActiveSection <$>
     offlineObjects (bound object ini state recorded scheme smartTerrainName isLoading
                       (put_offline object (consumed descriptor) w)) !! id object
     = Some None ∧
   trace (bound object ini state recorded scheme smartTerrainName isLoading
            (put_offline object (consumed descriptor) w)) =
   trace w ++ activation_calls object ini state recorded scheme smartTerrainName isLoading) ∧
  (section_exist ini section = false →
   (resolved ← getSectionToActivate object ini section;
    activateSchemeBySection object ini (Some resolved) smartTerrainName isLoading) w =
   (Ok tt, unbound object state isLoading w) ∧
   activeSection <$> objects (unbound object state isLoading w) !! id object
     = Some None ∧
   offlineObjects (unbound object state isLoading w) !! id object = Some descriptor).
Proof.
  intros Hstate Hdescriptor Hrecorded Hnil Hresumed Hscheme Hregistered Himpl.
  split; intros Hexist.
  - split_and!.
    + rewrite bind_run.
      rewrite (getSectionToActivate_offline _ _ _ _ _ _ Hexist Hdescriptor Hrecorded).
      rewrite Hresumed.
      apply activateSchemeBySection_bound_run; try done. congruence.
    + cbn. by rewrite lookup_insert_eq.
    + cbn. by rewrite lookup_insert_eq.
    + done.
  - split_and!.
    + assert (getSectionToActivate object ini section w = (Ok NIL, w)) as Hresolved
        by (unfold getSectionToActivate; by rewrite Hexist).
      rewrite bind_run, Hresolved.
      by apply activateSchemeBySection_null_run.
    + cbn. by rewrite lookup_insert_eq.
    + done.
Qed.

End FurtherProperties.

(** ** The further properties at work on the small engine *)

Lemma activateSchemeBySection_resolution_failure_witness :
  (activateSchemeBySection Demo.stalker Demo.ltx (Some "walker@gone"%string) None true
     Demo.online).2 = Demo.online.
Proof.
  refine (proj1 (proj2 (activateSchemeBySection_resolution_failure Demo.stalker Demo.ltx
                          (Some "walker@gone"%string) None true Demo.online
                          SectionDoesNotExist
                          (activateSchemeBySection Demo.stalker Demo.ltx
                             (Some "walker@gone"%string) None true Demo.online).2
                          _ eq_refl)) eq_refl).
  apply fails_eq. vm_compute. reflexivity.
Defined.

Lemma activateSchemeBySection_scheme_not_registered_witness :
  activateSchemeBySection Demo.stalker Demo.ltx (Some "walker@guard"%string) None true
    DemoMore.no_walker =
  (Err SchemeNotRegistered,
   half_switched Demo.stalker Demo.ltx
     (Demo.state (Some "walker@patrol"%string) (Some (EScheme.OTHER "walker")))
     "walker@guard" (EScheme.OTHER "walker") true DemoMore.no_walker).
Proof.
  apply (activateSchemeBySection_scheme_not_registered Demo.stalker Demo.ltx
           (Some "walker@guard"%string) None true
           (Demo.state (Some "walker@patrol"%string) (Some (EScheme.OTHER "walker")))
           "walker@guard" (EScheme.OTHER "walker") DemoMore.no_walker).
  - reflexivity.
  - discriminate.
  - discriminate.
  - reflexivity.
  - reflexivity.
  - reflexivity.
  - apply all_registered_check. reflexivity.
  - intros Hin. cbn in Hin.
    repeat (apply elem_of_cons in Hin as [Hin|Hin]; [discriminate Hin|]).
    by apply elem_of_nil in Hin.
Defined.

Lemma activateSchemeBySection_overrides_of_section_witness :
  ∃ state',
    objects (activateSchemeBySection Demo.stalker Demo.ltx (Some "walker@guard"%string)
               None false Demo.online).2 !! 1 = Some state' ∧
    overrides state' = Some "walker@guard"%string.
Proof.
  destruct (activateSchemeBySection_overrides_of_section Demo.stalker Demo.ltx
              (Some "walker@guard"%string) None false Demo.online
              (activateSchemeBySection Demo.stalker Demo.ltx (Some "walker@guard"%string)
                 None false Demo.online).2)
    as (state' & Hstate' & _).
  - apply returns_eq. vm_compute. reflexivity.
  - exists state'. split; [exact Hstate'|].
    apply (f_equal (fmap overrides)) in Hstate'.
    vm_compute in Hstate'. injection Hstate' as Hoverrides.
    symmetry. exact Hoverrides.
Defined.

Lemma isActiveSection_after_activation_witness :
  isActiveSection Demo.stalker (Some NIL)
    (activateSchemeBySection Demo.stalker Demo.ltx (Some NIL) None true Demo.online).2 =
  (Ok false,
   (activateSchemeBySection Demo.stalker Demo.ltx (Some NIL) None true Demo.online).2).
Proof.
  refine (proj2 (proj1 (isActiveSection_after_activation Demo.stalker Demo.ltx (Some NIL)
                          None true Demo.online
                          (activateSchemeBySection Demo.stalker Demo.ltx (Some NIL) None
                             true Demo.online).2 _) eq_refl)).
  apply returns_eq. vm_compute. reflexivity.
Defined.

Lemma resetObjectGenericSchemesOnSectionSwitch_failure_witness :
  NilIndex = NilIndex ∧
  match objects DemoMore.two_schemes !! id Demo.stalker with
  | None =>
      (resetObjectGenericSchemesOnSectionSwitch Demo.stalker (EScheme.OTHER "walker")
         "walker@guard" DemoMore.two_schemes).2 = DemoMore.two_schemes
  | Some state =>
      ¬ all_registered (reset_impls (schemeType state)) DemoMore.two_schemes ∧
      ∃ calls,
        (resetObjectGenericSchemesOnSectionSwitch Demo.stalker (EScheme.OTHER "walker")
           "walker@guard" DemoMore.two_schemes).2 = log calls DemoMore.two_schemes ∧
        calls `prefix_of`
          reset_calls Demo.stalker state (EScheme.OTHER "walker") "walker@guard"
  end.
Proof.
  apply (resetObjectGenericSchemesOnSectionSwitch_failure Demo.stalker
           (EScheme.OTHER "walker") "walker@guard" DemoMore.two_schemes NilIndex).
  apply fails_eq. vm_compute. reflexivity.
Defined.

Lemma resetObjectGenericSchemesOnSectionSwitch_bloodsucker_witness :
  ∃ calls,
    resetObjectGenericSchemesOnSectionSwitch DemoMore.bloodsucker EScheme.NIL NIL
      DemoMore.lair = (Ok tt, log calls DemoMore.lair) ∧
    filter (fun c => sets_invisibility c = true) calls = [SetManualInvisibility 2 false].
Proof.
  apply (resetObjectGenericSchemesOnSectionSwitch_bloodsucker DemoMore.bloodsucker
           EScheme.NIL NIL DemoMore.monster_state DemoMore.lair).
  - reflexivity.
  - reflexivity.
  - apply all_registered_check. reflexivity.
Defined.


Lemma resume_binds_recorded_witness :
  (resolved ← getSectionToActivate Demo.stalker Demo.ltx "logic";
   activateSchemeBySection Demo.stalker Demo.ltx (Some resolved) None true)
    (Demo.resumed (Some "walker@patrol"%string)) =
  (Ok tt,
   bound Demo.stalker Demo.ltx (Demo.state None None) "walker@patrol"
     (EScheme.OTHER "walker") None true
     (put_offline Demo.stalker
        (consumed {| levelVertexId := Some 255;
                     offlineActiveSection := Some "walker@patrol"%string |})
        (Demo.resumed (Some "walker@patrol"%string)))) ∧
  (resolved ← getSectionToActivate Demo.stalker Demo.ltx "logic_gone";
   activateSchemeBySection Demo.stalker Demo.ltx (Some resolved) None true)
    (Demo.resumed (Some "walker@patrol"%string)) =
  (Ok tt,
   unbound Demo.stalker (Demo.state None None) true
     (Demo.resumed (Some "walker@patrol"%string))).
Proof.
  split.
  - refine (proj1 (proj1 (resume_binds_recorded Demo.stalker Demo.ltx "logic" None true
             (Demo.state None None)
             {| levelVertexId := Some 255;
                offlineActiveSection := Some "walker@patrol"%string |}
             "walker@patrol" (EScheme.OTHER "walker")
             (Demo.resumed (Some "walker@patrol"%string))
             eq_refl eq_refl eq_refl _ eq_refl eq_refl _ _) eq_refl)).
    + discriminate.
    + apply all_registered_check. reflexivity.
    + apply (all_registered_check [EScheme.OTHER "walker"]); [reflexivity|left].
  - refine (proj1 (proj2 (resume_binds_recorded Demo.stalker Demo.ltx "logic_gone" None true
             (Demo.state None None)
             {| levelVertexId := Some 255;
                offlineActiveSection := Some "walker@patrol"%string |}
             "walker@patrol" (EScheme.OTHER "walker")
             (Demo.resumed (Some "walker@patrol"%string))
             eq_refl eq_refl eq_refl _ eq_refl eq_refl _ _) eq_refl)).
    + discriminate.
    + apply all_registered_check. reflexivity.
    + apply (all_registered_check [EScheme.OTHER "walker"]); [reflexivity|left].
Defined.

(** * Properties of the item upgrades *)

Section UpgradesProperties.
Context {env : Upgrades.Env}.
Context (pick : option Upgrades.Speaker → Upgrades.TConditionList → Upgrades.Store →
                option TSection * Upgrades.Store).

Lemma string_append_nil_r (a : string) : String.append a EmptyString = a.
Proof.
  induction a as [|c a IH]; [done|].
  change (String c (String.append a EmptyString) = String c a). by rewrite IH.
Qed.

Lemma string_append_assoc (a b c : string) :
  String.append (String.append a b) c = String.append a (String.append b c).
Proof.
  induction a as [|x a IH]; [done|].
  change (String x (String.append (String.append a b) c) =
          String x (String.append a (String.append b c))).
  by rewrite IH.
Qed.

Lemma hints_foldl (label : string) (hints : list Upgrades.TLabel) :
  foldl (fun label caption =>
           String.append label
             (String.append "\n - " (Upgrades.translate_string caption)))
        label hints =
  String.append label (Upgrades.hint_lines hints).
Proof.
  revert label. induction hints as [|caption hints IH]; intros label; cbn.
  - by rewrite string_append_nil_r.
  - by rewrite IH, string_append_assoc.
Qed.

(** X17. The label of [getPossibilitiesLabel] is never empty.  Without hints
    (none set, or an empty list) it is the fixed request for hints; with hints
    it is one line per hint, in order, each the translated caption after the
    list marker.  The mechanic and the condition list passed in play no part. *)
Theorem getPossibilitiesLabel_never_empty mechanicName possibilities (w : Upgrades.Store) :
  Upgrades.getPossibilitiesLabel mechanicName possibilities w ≠ EmptyString ∧
  (Upgrades.UPGRADES_HINTS (Upgrades.config w) = None ∨
   Upgrades.UPGRADES_HINTS (Upgrades.config w) = Some [] →
   Upgrades.getPossibilitiesLabel mechanicName possibilities w =
   " - add hints for this upgrade"%string) ∧
  (∀ caption hints,
     Upgrades.UPGRADES_HINTS (Upgrades.config w) = Some (caption :: hints) →
     Upgrades.getPossibilitiesLabel mechanicName possibilities w =
     Upgrades.hint_lines (caption :: hints)).
Proof.
  unfold Upgrades.getPossibilitiesLabel.
  destruct (Upgrades.UPGRADES_HINTS (Upgrades.config w)) as [[|caption hints]|].
  - split_and!; [done|done|]. by intros ? ? [=].
  - rewrite hints_foldl. cbn. split_and!; [done|by intros [[=]|[=]]|].
    by intros ? ? [= <- <-].
  - split_and!; [done|done|]. by intros ? ? [=].
Qed.

Lemma line_exist_r_string (ini : IniFile) (section : TSection) (field : TName) :
  line_exist ini section field = true ↔ is_Some (r_string ini section field).
Proof. unfold line_exist, r_string. apply bool_decide_eq_true. Qed.

Lemma line_exist_None (ini : IniFile) (section : TSection) (field : TName) :
  line_exist ini section field = false ↔ r_string ini section field = None.
Proof.
  unfold line_exist, r_string. rewrite bool_decide_eq_false.
  by rewrite <- eq_None_not_Some.
Qed.

(** X18. [getPreconditionFunctorA] answers 0, 1 or 2.  It answers 1 exactly
    when the upgrades section of the current mechanic lists the item with the
    word FALSE.  When it answers 0 with an actor, the price does not exceed
    the money of the actor.  It evaluates a condition list only for an entry
    other than FALSE and TRUE: for these two words and without an entry the
    store is the one before the call. *)
Theorem getPreconditionFunctorA_answer name section (w : Upgrades.Store) :
  ((Upgrades.getPreconditionFunctorA pick name section w).1 = 0 ∨
   (Upgrades.getPreconditionFunctorA pick name section w).1 = 1 ∨
   (Upgrades.getPreconditionFunctorA pick name section w).1 = 2) ∧
  ((Upgrades.getPreconditionFunctorA pick name section w).1 = 1 ↔
   r_string Upgrades.STALKER_UPGRADE_INFO (Upgrades.upgrades_section w) section
   = Some Upgrades.FALSE) ∧
  ((Upgrades.getPreconditionFunctorA pick name section w).1 = 0 →
   Upgrades.actor (Upgrades.getPreconditionFunctorA pick name section w).2 = true →
   Upgrades.upgrade_price section (Upgrades.getPreconditionFunctorA pick name section w).2
   ≤ Upgrades.cash (Upgrades.getPreconditionFunctorA pick name section w).2) ∧
  (r_string Upgrades.STALKER_UPGRADE_INFO (Upgrades.upgrades_section w) section
     = Some Upgrades.FALSE ∨
   r_string Upgrades.STALKER_UPGRADE_INFO (Upgrades.upgrades_section w) section
     = Some Upgrades.TRUE ∨
   r_string Upgrades.STALKER_UPGRADE_INFO (Upgrades.upgrades_section w) section = None →
   (Upgrades.getPreconditionFunctorA pick name section w).2 = w).
Proof.
  assert (∀ w1 : Upgrades.Store,
    ∃ answer,
      (if Upgrades.actor w1
       then if bool_decide (Upgrades.cash w1 < Upgrades.upgrade_price section w1)
            then (2, w1) else (0, w1)
       else (0, w1)) = (answer, w1) ∧
      (answer = 0 ∨ answer = 2) ∧
      (answer = 0 → Upgrades.actor w1 = true →
       Upgrades.upgrade_price section w1 ≤ Upgrades.cash w1)) as Hprice.
  { intros w1. destruct (Upgrades.actor w1); [case_bool_decide|]; eexists;
      (split; [reflexivity|]); split; auto; intros; first [lia|done]. }
  unfold Upgrades.getPreconditionFunctorA.
  destruct (line_exist Upgrades.STALKER_UPGRADE_INFO (Upgrades.upgrades_section w) section)
    eqn:Hline.
  - apply line_exist_r_string in Hline as [param Hparam]. rewrite Hparam.
    destruct (String.eqb_spec param Upgrades.FALSE) as [->|Hfalse].
    { cbn. split_and!; [by right; left|done|done|done]. }
    destruct (String.eqb_spec param Upgrades.TRUE) as [->|Htrue]; cbn [negb].
    + destruct (Hprice w) as (answer & -> & Hanswer & Hcash). cbn.
      split_and!; [destruct Hanswer as [-> | ->]; auto| |done|done].
      split; [by destruct Hanswer as [-> | ->]|]. by intros [= ?].
    + destruct (pick (Upgrades.ACTIVE_SPEAKER w) (Upgrades.parseConditionsList param) w)
        as [possibility w1].
      assert (¬ (Some param = Some Upgrades.FALSE ∨ Some param = Some Upgrades.TRUE ∨
                 Some param = None)) as Hword.
      { by intros [[= ?]|[[= ?]|[=]]]. }
      destruct (Upgrades.refused possibility).
      { cbn. split_and!; [by right; right|split; [done|by intros [= ?]]|done|done]. }
      destruct (Hprice w1) as (answer & -> & Hanswer & Hcash). cbn.
      split_and!; [destruct Hanswer as [-> | ->]; auto| |done|done].
      split; [by destruct Hanswer as [-> | ->]|]. by intros [= ?].
  - apply line_exist_None in Hline. rewrite Hline.
    destruct (Hprice w) as (answer & -> & Hanswer & Hcash). cbn.
    split_and!; [destruct Hanswer as [-> | ->]; auto| |done|done].
    split; [by destruct Hanswer as [-> | ->]|done].
Qed.

(** X19. The two functors agree where no condition list is evaluated.  For an
    item listed with the word FALSE the answer is 1, the label is empty and
    both leave the store alone, whatever the money of the actor.  For an item
    without an entry both leave the store alone, the label is empty exactly
    when the answer is 0, and otherwise it is the line on money. *)
Theorem upgrade_functors_agree name section (w : Upgrades.Store) :
  (r_string Upgrades.STALKER_UPGRADE_INFO (Upgrades.upgrades_section w) section
     = Some Upgrades.FALSE →
   Upgrades.getPreconditionFunctorA pick name section w = (1, w) ∧
   Upgrades.getPreRequirementsFunctorA pick name section w = (EmptyString, w)) ∧
  (r_string Upgrades.STALKER_UPGRADE_INFO (Upgrades.upgrades_section w) section = None →
   (Upgrades.getPreconditionFunctorA pick name section w).2 = w ∧
   (Upgrades.getPreRequirementsFunctorA pick name section w).2 = w ∧
   ((Upgrades.getPreconditionFunctorA pick name section w).1 = 0 ↔
    (Upgrades.getPreRequirementsFunctorA pick name section w).1 = EmptyString) ∧
   ((Upgrades.getPreconditionFunctorA pick name section w).1 = 2 ↔
    (Upgrades.getPreRequirementsFunctorA pick name section w).1 =
    String.append "\n - " (Upgrades.translate_string "st_upgr_enough_money"))).
Proof.
  unfold Upgrades.getPreconditionFunctorA, Upgrades.getPreRequirementsFunctorA.
  split.
  - intros Hparam.
    assert (line_exist Upgrades.STALKER_UPGRADE_INFO (Upgrades.upgrades_section w) section
            = true) as ->.
    { apply line_exist_r_string. by rewrite Hparam. }
    by rewrite Hparam, String.eqb_refl.
  - intros Hparam. rewrite Hparam.
    destruct (line_exist Upgrades.STALKER_UPGRADE_INFO (Upgrades.upgrades_section w)
                section);
      (destruct (Upgrades.actor w); [case_bool_decide|]); cbn; by split_and!.
Qed.

(** X20. An upgrade the precondition allows is paid within the money of the
    actor: after an answer of 0 with an actor, [getUpgradeItemPayment] with a
    loading flag of 0 passes to [give_money] the negated price, the money of
    the actor goes down by the price and is not negative afterwards, and the
    configuration is the same; with any other loading flag it does
    nothing. *)
Theorem upgrade_payment_within_cash name name' section (w w1 : Upgrades.Store) :
  Upgrades.getPreconditionFunctorA pick name section w = (0, w1) →
  Upgrades.actor w1 = true →
  (∃ w2,
     Upgrades.getUpgradeItemPayment name' section 0 w1 = Some w2 ∧
     Upgrades.given w2 = Upgrades.given w1 ++ [- Upgrades.upgrade_price section w1] ∧
     Upgrades.cash w2 = Upgrades.cash w1 - Upgrades.upgrade_price section w1 ∧
     0 ≤ Upgrades.cash w2 ∧
     Upgrades.config w2 = Upgrades.config w1) ∧
  (∀ loading, loading ≠ 0 →
     Upgrades.getUpgradeItemPayment name' section loading w1 = Some w1).
Proof.
  intros Hanswer Hactor.
  assert (Upgrades.upgrade_price section w1 ≤ Upgrades.cash w1) as Hwithin.
  { unfold Upgrades.getPreconditionFunctorA in Hanswer.
    assert (∀ w0 : Upgrades.Store,
      (if Upgrades.actor w0
       then if bool_decide (Upgrades.cash w0 < Upgrades.upgrade_price section w0)
            then (2, w0) else (0, w0)
       else (0, w0)) = (0, w1) →
      Upgrades.upgrade_price section w1 ≤ Upgrades.cash w1) as Hprice.
    { intros w0 Hcheck. destruct (Upgrades.actor w0) eqn:Hactor0.
      - case_bool_decide; [done|]. injection Hcheck as ->. lia.
      - injection Hcheck as ->. congruence. }
    destruct (line_exist Upgrades.STALKER_UPGRADE_INFO (Upgrades.upgrades_section w)
                section); [|by eapply Hprice].
    destruct (r_string Upgrades.STALKER_UPGRADE_INFO (Upgrades.upgrades_section w) section)
      as [param|]; [|by eapply Hprice].
    destruct (String.eqb param Upgrades.FALSE); [done|].
    destruct (negb (String.eqb param Upgrades.TRUE)); [|by eapply Hprice].
    destruct (pick (Upgrades.ACTIVE_SPEAKER w) (Upgrades.parseConditionsList param) w)
      as [possibility w0].
    destruct (Upgrades.refused possibility); [done|by eapply Hprice]. }
  split.
  - unfold Upgrades.getUpgradeItemPayment, Upgrades.give_money.
    rewrite bool_decide_eq_true_2, Hactor by done. eexists. split; [done|]. cbn.
    split_and!; [f_equal; f_equal; lia|lia|lia|done].
  - intros loading Hloading. unfold Upgrades.getUpgradeItemPayment.
    by rewrite bool_decide_eq_false_2.
Qed.

End UpgradesProperties.

Lemma upgrade_payment_within_cash_witness :
  ∃ w2,
    Upgrades.getUpgradeItemPayment "wpn" "up_a" 0 (DemoUpgrades.store 700) = Some w2 ∧
    Upgrades.given w2 = [-500] ∧
    Upgrades.cash w2 = 200.
Proof.
  destruct (@upgrade_payment_within_cash DemoUpgrades.env DemoUpgrades.pick
              "wpn" "wpn" "up_a"
              (DemoUpgrades.store 700) (DemoUpgrades.store 700))
    as [(w2 & Hpaid & Hgiven & Hcash & _) _].
  - reflexivity.
  - reflexivity.
  - exists w2. split; [exact Hpaid|]. split; [exact Hgiven|exact Hcash].
Defined.

(** * Properties of the animpoint actions *)

Section AnimpointProperties.
Context {env : Animpoint.Env}.

(** X21. Every animpoint state of the table other than the camp of walkers
    lists itself first, under a predicate that holds for every object,
    whatever it carries and wherever it is, so the list of a state always
    has an action an object can take.  The camp of walkers lists only
    actions that no object outside a camp can take. *)
Theorem animpoint_state_always_available (state : Animpoint.EStalkerState) descriptors :
  Animpoint.animpoint_predicates state = Some descriptors →
  (state ≠ Animpoint.WALKER_CAMP →
   ∃ first rest,
     descriptors = first :: rest ∧
     Animpoint.name first = state ∧
     ∀ noCombatSmartTerrains object isInCamp,
       Animpoint.predicate first noCombatSmartTerrains object isInCamp = true) ∧
  (state = Animpoint.WALKER_CAMP →
   ∀ descriptor,
     descriptor ∈ descriptors →
     ∀ noCombatSmartTerrains object isInCamp,
       isInCamp ≠ Some true →
       Animpoint.predicate descriptor noCombatSmartTerrains object isInCamp = false).
Proof.
  intros Htable. split.
  - intros Hstate.
    destruct state; try discriminate Htable; try done;
      injection Htable as <-; do 2 eexists; (split; [reflexivity|]); done.
  - intros -> descriptor Hin noCombatSmartTerrains object isInCamp Hcamp.
    injection Htable as <-.
    apply elem_of_cons in Hin as [-> | Hin];
      [|apply list_elem_of_singleton in Hin as ->].
    + unfold Animpoint.predicate, Animpoint.animpointPredicateGuitar.
      by destruct isInCamp as [[]|].
    + unfold Animpoint.predicate, Animpoint.animpointPredicateHarmonica.
      by rewrite bool_decide_eq_false_2.
Qed.

Lemma eatableVisuals_harmonicaVisuals :
  Animpoint.eatableVisuals ⊆ Animpoint.harmonicaVisuals.
Proof. apply (bool_decide_unpack _). vm_compute. reflexivity. Qed.

(** X22. The visuals that can eat are among the visuals that can play the
    harmonica: an object that can take one of the eating or drinking actions
    and carries a harmonica can play it in a camp. *)
Theorem animpoint_eater_plays_harmonica noCombatSmartTerrains object isInCamp :
  Animpoint.animpointPredicateBread noCombatSmartTerrains object isInCamp = true
  ∨ Animpoint.animpointPredicateKolbasa noCombatSmartTerrains object isInCamp = true
  ∨ Animpoint.animpointPredicateVodka noCombatSmartTerrains object isInCamp = true
  ∨ Animpoint.animpointPredicateEnergy noCombatSmartTerrains object isInCamp = true →
  Animpoint.has_object object Animpoint.misc_harmonica_a = true →
  Animpoint.animpointPredicateHarmonica noCombatSmartTerrains object (Some true) = true.
Proof.
  intros Heats Hcarries.
  assert (Animpoint.get_visual_name object ∈ Animpoint.eatableVisuals) as Hvisual.
  { unfold Animpoint.animpointPredicateBread, Animpoint.animpointPredicateKolbasa,
      Animpoint.animpointPredicateVodka, Animpoint.animpointPredicateEnergy in Heats.
    destruct (decide (Animpoint.get_visual_name object ∈ Animpoint.eatableVisuals))
      as [|Hnot]; [done|].
    rewrite (bool_decide_eq_false_2 _ Hnot) in Heats.
    by destruct Heats as [|[|[|]]]. }
  apply eatableVisuals_harmonicaVisuals in Hvisual.
  unfold Animpoint.animpointPredicateHarmonica.
  by rewrite (bool_decide_eq_true_2 _ Hvisual), Hcarries, bool_decide_eq_true_2.
Qed.

End AnimpointProperties.

Lemma animpoint_state_always_available_witness :
  @Animpoint.animpoint_predicates DemoAnimpoint.env Animpoint.ANIMPOINT_SIT_HIGH
  = Some (default [] (@Animpoint.animpoint_predicates DemoAnimpoint.env
                        Animpoint.ANIMPOINT_SIT_HIGH)) ∧
  ∃ first rest,
    default [] (@Animpoint.animpoint_predicates DemoAnimpoint.env
                  Animpoint.ANIMPOINT_SIT_HIGH) = first :: rest ∧
    Animpoint.name first = Animpoint.ANIMPOINT_SIT_HIGH ∧
    ∀ noCombatSmartTerrains object isInCamp,
      Animpoint.predicate first noCombatSmartTerrains object isInCamp = true.
Proof.
  split; [reflexivity|].
  apply (proj1 (@animpoint_state_always_available DemoAnimpoint.env
                  Animpoint.ANIMPOINT_SIT_HIGH
                  (default [] (@Animpoint.animpoint_predicates DemoAnimpoint.env
                                 Animpoint.ANIMPOINT_SIT_HIGH))
                  eq_refl)).
  discriminate.
Defined.

Lemma animpoint_eater_plays_harmonica_witness :
  @Animpoint.animpointPredicateBread DemoAnimpoint.env ∅ Demo.stalker None = true ∧
  @Animpoint.animpointPredicateHarmonica DemoAnimpoint.env ∅ Demo.stalker (Some true)
  = true.
Proof.
  split; [vm_compute; reflexivity|].
  apply (@animpoint_eater_plays_harmonica DemoAnimpoint.env ∅ Demo.stalker None).
  - left. vm_compute. reflexivity.
  - reflexivity.
Defined.
